(** * Nomeriq migration tooling: wrap and extract scripts

    A shallow embedding of the six maintenance scripts that post-process the
    SQL migration corpus:

    - [fix_all_migrations.py], [fix_migrations.py], [generate_consolidated.py]
      and [generate_consolidated_v2.py] wrap bare
      [ALTER PUBLICATION supabase_realtime ADD TABLE t;] statements in a
      guarded [DO $$ ... $$] block;
    - [extract_functions.py] copies function and trigger definitions into a
      stand-alone file;
    - [check_nesting.py] reports files holding several [DO $$] blocks.

    File text is a list of characters (code points below 256).  Directory
    listing and file reading are outside the model: a corpus is the sorted
    list of (file name, text) pairs the scripts iterate over. *)

From Stdlib Require Import Ascii String Numbers.DecimalString.
From Stdlib Require Import Bool Arith ZArith Lia List.
Import ListNotations.

Local Open Scope list_scope.

(** ** Text *)

Definition str := list ascii.

Definition lit (s : string) : str := list_ascii_of_string s.

Definition nl : ascii := "010"%char.

(** [s[a:b]] for [0 <= a]. *)
Definition slice {A} (s : list A) (a b : nat) : list A :=
  firstn (b - a) (skipn a s).

(** [s.startswith(p)]. *)
Fixpoint starts_with (p s : str) : bool :=
  match p, s with
  | [], _ => true
  | _ :: _, [] => false
  | a :: p', b :: s' => Ascii.eqb a b && starts_with p' s'
  end.

(** [s.find(p)]: index of the first occurrence, [None] for Python's [-1]. *)
Fixpoint find (p s : str) : option nat :=
  if starts_with p s then Some 0
  else match s with
       | [] => None
       | _ :: s' => option_map S (find p s')
       end.

(** [p in s]. *)
Definition contains (p s : str) : bool :=
  match find p s with Some _ => true | None => false end.

(** [s.count(p)] for a non-empty [p]: occurrences are counted left to right
    and do not overlap; [skip] is the number of characters still covered by
    the occurrence counted last. *)
Fixpoint count_skip (p s : str) (skip : nat) : nat :=
  match s with
  | [] => 0
  | _ :: s' =>
      match skip with
      | S k => count_skip p s' k
      | 0 => if starts_with p s
             then S (count_skip p s' (length p - 1))
             else count_skip p s' 0
      end
  end.

Definition count (p s : str) : nat :=
  match p with
  | [] => S (length s)
  | _ => count_skip p s 0
  end.

(** [s.split('\n')]. *)
Fixpoint split_nl (s : str) : list str :=
  match s with
  | [] => [[]]
  | c :: s' =>
      if Ascii.eqb c nl then [] :: split_nl s'
      else match split_nl s' with
           | [] => [[c]]
           | l :: ls => (c :: l) :: ls
           end
  end.

(** ['\n'.join(ls)]. *)
Fixpoint join_nl (ls : list str) : str :=
  match ls with
  | [] => []
  | [l] => l
  | l :: ls' => l ++ nl :: join_nl ls'
  end.

(** [''.join(ls)]. *)
Definition join_empty (ls : list str) : str := concat ls.

(** [s.rfind(c, 0, stop)] for a one-character [c]: the last index below
    [stop] holding [c], [-1] when there is none. *)
Fixpoint rfind_scan (c : ascii) (s : str) (i : Z) (acc : Z) : Z :=
  match s with
  | [] => acc
  | x :: s' => rfind_scan c s' (i + 1)%Z (if Ascii.eqb x c then i else acc)
  end.

Definition rfind_char (c : ascii) (s : str) (stop : nat) : Z :=
  rfind_scan c (firstn stop s) 0%Z (-1)%Z.

(** [ws[i] = v] on a list whose index [i] exists (the scripts only assign to
    the index they are visiting). *)
Fixpoint set_nth {A} (ws : list A) (i : nat) (v : A) : list A :=
  match ws, i with
  | [], _ => []
  | _ :: t, 0 => v :: t
  | x :: t, S j => x :: set_nth t j v
  end.

(** [str(n)] for a natural number. *)
Definition str_of_nat (n : nat) : str :=
  lit (NilZero.string_of_uint (Nat.to_uint n)).

(** ** Regular expressions

    The patterns of the scripts only repeat single character classes, so the
    syntax below covers them; [bt] is the backtracking matcher of Python's
    [re]: alternatives are tried in priority order and the first complete
    match wins. *)

Inductive regex :=
| Eps
| Chr (p : ascii -> bool)
| Seq (r1 r2 : regex)
| Star (greedy : bool) (p : ascii -> bool)
| Opt (r : regex)
| Cap (n : nat) (r : regex).

(** Captured groups: the text of group [n], [None] when it took no part. *)
Definition caps := nat -> option str.

Definition no_caps : caps := fun _ => None.

Definition set_cap (n : nat) (w : str) (c : caps) : caps :=
  fun m => if Nat.eqb m n then Some w else c m.

Section Backtrack.
Context {R : Type}.

Fixpoint star_greedy (p : ascii -> bool) (k : str -> option R) (s : str)
  : option R :=
  match s with
  | x :: t =>
      if p x then
        match star_greedy p k t with
        | Some r => Some r
        | None => k s
        end
      else k s
  | [] => k s
  end.

Fixpoint star_lazy (p : ascii -> bool) (k : str -> option R) (s : str)
  : option R :=
  match k s with
  | Some r => Some r
  | None =>
      match s with
      | x :: t => if p x then star_lazy p k t else None
      | [] => None
      end
  end.

Fixpoint bt (r : regex) (s : str) (c : caps)
  (k : str -> caps -> option R) : option R :=
  match r with
  | Eps => k s c
  | Chr p =>
      match s with
      | x :: t => if p x then k t c else None
      | [] => None
      end
  | Seq r1 r2 => bt r1 s c (fun s1 c1 => bt r2 s1 c1 k)
  | Star true p => star_greedy p (fun s' => k s' c) s
  | Star false p => star_lazy p (fun s' => k s' c) s
  | Opt r1 =>
      match bt r1 s c k with
      | Some x => Some x
      | None => k s c
      end
  | Cap n r1 =>
      bt r1 s c
        (fun s' c' => k s' (set_cap n (firstn (length s - length s') s) c'))
  end.
End Backtrack.

(** [X+] and [X+?] over a character class. *)
Definition Plus (greedy : bool) (p : ascii -> bool) : regex :=
  Seq (Chr p) (Star greedy p).

(** A match object: [m.start()], [m.end()] and the groups; [m.group(0)] is
    the slice of the subject between the two. *)
Record Match := mkMatch {
  m_start : nat;
  m_end : nat;
  m_groups : caps
}.

Definition group0 (content : str) (m : Match) : str :=
  slice content (m_start m) (m_end m).

Definition group (m : Match) (n : nat) : str :=
  match m_groups m n with Some w => w | None => [] end.

(** The pattern anchored at the head of [s]: the unconsumed rest and the
    groups. *)
Definition match_here (r : regex) (s : str) : option (str * caps) :=
  bt r s no_caps (fun s' c => Some (s', c)).

(** [pattern.search(content, pos)] where [s] is [content[pos:]]: the leftmost
    position at which the pattern matches. *)
Fixpoint search_at (r : regex) (s : str) (pos : nat) : option Match :=
  match match_here r s with
  | Some (s', c) => Some (mkMatch pos (pos + (length s - length s')) c)
  | None =>
      match s with
      | [] => None
      | _ :: t => search_at r t (S pos)
      end
  end.

Definition re_search (r : regex) (s : str) : option Match := search_at r s 0.

(** [re.finditer]: successive searches, each from the end of the match
    before.  The patterns of the scripts never match the empty string, so
    every round consumes text and [length content] rounds are enough. *)
Fixpoint finditer_from (fuel : nat) (r : regex) (content : str) (pos : nat)
  : list Match :=
  match fuel with
  | 0 => []
  | S f =>
      match search_at r (skipn pos content) pos with
      | None => []
      | Some m => m :: finditer_from f r content (m_end m)
      end
  end.

Definition finditer (r : regex) (content : str) : list Match :=
  finditer_from (S (length content)) r content 0.

(** *** Character classes *)

Definition is_char (a : ascii) : ascii -> bool := Ascii.eqb a.

Definition code (a : ascii) : nat := nat_of_ascii a.

Definition in_range (lo hi : nat) (a : ascii) : bool :=
  Nat.leb lo (code a) && Nat.leb (code a) hi.

Definition to_lower (a : ascii) : ascii :=
  if in_range 65 90 a then ascii_of_nat (code a + 32) else a.

(** A literal under [re.IGNORECASE]. *)
Definition is_char_ci (a : ascii) : ascii -> bool :=
  fun b => Ascii.eqb (to_lower a) (to_lower b).

(** [\s] on a [str] pattern. *)
Definition is_space (a : ascii) : bool :=
  in_range 9 13 a || in_range 28 32 a
  || Nat.eqb (code a) 133 || Nat.eqb (code a) 160.

(** [\w] on a [str] pattern: alphanumeric or underscore. *)
Definition is_word (a : ascii) : bool :=
  in_range 48 57 a || in_range 65 90 a || in_range 97 122 a
  || Nat.eqb (code a) 95
  || Nat.eqb (code a) 170 || in_range 178 179 a || Nat.eqb (code a) 181
  || in_range 185 186 a || in_range 188 190 a
  || in_range 192 214 a || in_range 216 246 a || in_range 248 255 a.

(** [.] with [re.DOTALL]. *)
Definition any_char (_ : ascii) : bool := true.

(** A literal string, case-sensitive or not. *)
Fixpoint lit_re (ci : bool) (l : str) : regex :=
  match l with
  | [] => Eps
  | a :: l' => Seq (Chr (if ci then is_char_ci a else is_char a)) (lit_re ci l')
  end.

(** ** The publication statement and its wrapper (all four wrap scripts) *)

Definition PHRASE : str := lit "ALTER PUBLICATION supabase_realtime ADD TABLE".

(** [[^;]] *)
Definition not_semicolon (a : ascii) : bool := negb (Ascii.eqb a ";"%char).

(** [r'ALTER PUBLICATION supabase_realtime ADD TABLE ([^;]+);'] *)
Definition alter_re : regex :=
  Seq (lit_re false (PHRASE ++ lit " "))
      (Seq (Cap 1 (Plus true not_semicolon))
           (Chr (is_char ";"%char))).

(** The f-string every script substitutes for a bare statement. *)
Definition wrapped (table_name : str) : str :=
  lit "DO $$" ++ nl ::
  lit "BEGIN" ++ nl ::
  lit "  BEGIN" ++ nl ::
  lit "    ALTER PUBLICATION supabase_realtime ADD TABLE " ++ table_name
    ++ lit ";" ++ nl ::
  lit "  EXCEPTION WHEN duplicate_object THEN" ++ nl ::
  lit "    NULL;" ++ nl ::
  lit "  END;" ++ nl ::
  lit "END $$;".

(** ** fix_all_migrations.py *)

Module FixAll.

(** The test of lines 27-30 on the list as it stands when index [i] is
    visited. *)
Definition needs_wrap (ws : list str) (i : nat) (line : str) : bool :=
  contains PHRASE line &&
  (let context := join_nl (slice ws (Nat.max 0 (i - 10)) i) in
   negb (contains (lit "DO $$") context) || contains (lit "END $$") context).

(** What line [i] is replaced with, if it is. *)
Definition replacement (ws : list str) (i : nat) (line : str)
  : option str :=
  if needs_wrap ws i line then
    match re_search alter_re line with
    | Some m => Some (wrapped (group m 1))
    | None => None
    end
  else None.

(** One round of the [for i, line in enumerate(lines)] loop; the list is
    updated in place, so later rounds look back at rewritten entries. *)
Definition step (st : list str * bool) (i : nat) : list str * bool :=
  let (ws, modified) := st in
  match nth_error ws i with
  | None => st
  | Some line =>
      match replacement ws i line with
      | Some w => (set_nth ws i w, true)
      | None => st
      end
  end.

Definition loop_upto (lines : list str) (n : nat) : list str * bool :=
  fold_left step (seq 0 n) (lines, false).

Definition loop (lines : list str) : list str * bool :=
  loop_upto lines (length lines).

(** The file's text after the script ran: it is written back only when a
    line was replaced. *)
Definition fix_file (content : str) : str :=
  let (ws, modified) := loop (split_nl content) in
  if modified then join_nl ws else content.

(** The decision taken for line [i] of an input file: the replacement
    computed when the loop reaches it. *)
Definition decision_at (lines : list str) (i : nat) : option str :=
  let ws := fst (loop_upto lines i) in
  match nth_error ws i with
  | Some line => replacement ws i line
  | None => None
  end.

End FixAll.

(** ** fix_migrations.py *)

Module FixOne.

Definition emit (lines : list str) (i : nat) (line : str) : str :=
  if contains PHRASE line
     && negb (contains (lit "DO $$")
                (join_nl (slice lines (Nat.max 0 (i - 5)) i)))
  then
    match re_search alter_re line with
    | Some m => wrapped (group m 1)
    | None => line
    end
  else line.

Fixpoint loop_from (lines : list str) (i : nat) (todo : list str)
  : list str :=
  match todo with
  | [] => []
  | line :: rest => emit lines i line :: loop_from lines (S i) rest
  end.

Definition fix_file (content : str) : str :=
  let lines := split_nl content in
  join_nl (loop_from lines 0 lines).

End FixOne.

(** ** generate_consolidated.py *)

Module Consolidated.

(** Lines 29-32: [BEGIN] in the ten lines before or the line itself, and
    [EXCEPTION] there or in the line and the four after it. *)
Definition handled (lines : list str) (i : nat) : bool :=
  let context := join_nl (slice lines (Nat.max 0 (i - 10)) (i + 1)) in
  contains (lit "BEGIN") context
  && (contains (lit "EXCEPTION") context
      || contains (lit "EXCEPTION")
           (join_nl (slice lines i (Nat.min (length lines) (i + 5))))).

Definition emit (lines : list str) (i : nat) (line : str) : str :=
  if contains PHRASE line then
    if handled lines i then line
    else
      match re_search alter_re line with
      | Some m => wrapped (group m 1)
      | None => line
      end
  else line.

Fixpoint loop_from (lines : list str) (i : nat) (todo : list str)
  : list str :=
  match todo with
  | [] => []
  | line :: rest => emit lines i line :: loop_from lines (S i) rest
  end.

(** The text appended to the consolidated file for one migration. *)
Definition transform (content : str) : str :=
  if contains PHRASE content then
    let lines := split_nl content in
    join_nl (loop_from lines 0 lines)
  else content.

End Consolidated.

(** ** generate_consolidated_v2.py *)

(** The three outcomes the design distinguishes for an occurrence. *)
Inductive WrapDecision := AlreadyWrapped | NeedsWrap | Ambiguous.

Module ConsolidatedV2.

(** [re.sub(r'--.*', '', content)]: every [--] and what follows it up to
    the end of its line is removed ([.] stops at a newline).  The script
    computes this text on line 24 and squeezes its white space on line 25,
    but reads neither afterwards; [check_nesting.py] counts on it. *)
Fixpoint strip_comments_aux (s : str) (in_comment : bool) : str :=
  match s with
  | [] => []
  | c :: t =>
      if in_comment then
        if Ascii.eqb c nl then c :: strip_comments_aux t false
        else strip_comments_aux t true
      else if starts_with (lit "--") s then strip_comments_aux t true
      else c :: strip_comments_aux t false
  end.

Definition strip_comments (content : str) : str :=
  strip_comments_aux content false.

(** Lines 45-51. *)
Definition dollar_count (content : str) (start : nat) : nat :=
  let pre_context := firstn start content in
  count (lit "$$") pre_context.

Definition in_do_block (content : str) (start : nat) : bool :=
  Nat.eqb (dollar_count content start mod 2) 1.

(** The two branches of line 56, named as the design names them: the
    [if] branch keeps the statement (already in a DO block), the [else]
    branch wraps it. *)
Definition decision (content : str) (m : Match) : WrapDecision :=
  if in_do_block content (m_start m) then AlreadyWrapped else NeedsWrap.

(** What is appended for a match at line 58 or 74. *)
Definition part_for (content : str) (m : Match) : str :=
  if in_do_block content (m_start m) then group0 content m
  else wrapped (group m 1).

(** The [for match in matches] loop: [(last_idx, new_content_parts)]. *)
Fixpoint loop (content : str) (matches : list Match) (last_idx : nat)
  (parts : list str) : nat * list str :=
  match matches with
  | [] => (last_idx, parts)
  | m :: ms =>
      let parts1 := parts ++ [slice content last_idx (m_start m)] in
      let parts2 := parts1 ++ [part_for content m] in
      loop content ms (m_end m) parts2
  end.

Definition transform (content : str) : str :=
  if contains PHRASE content then
    let matches := finditer alter_re content in
    let (last_idx, parts) := loop content matches 0 [] in
    join_empty (parts ++ [skipn last_idx content])
  else content.

End ConsolidatedV2.

(** ** check_nesting.py *)

Module CheckNesting.

Definition do_count (content : str) : nat :=
  count (lit "DO $$") (ConsolidatedV2.strip_comments content).

(** [re.search(r'DO \$\$.*DO \$\$', text, re.DOTALL)] succeeds when a
    second [DO $$] starts after the end of the first. *)
Definition nested_pattern (text : str) : bool :=
  match find (lit "DO $$") text with
  | Some i => contains (lit "DO $$") (skipn (i + 5) text)
  | None => false
  end.

(** The lines printed for one file. *)
Definition report (filename content : str) : list str :=
  let content_no_comments := ConsolidatedV2.strip_comments content in
  let n := do_count content in
  if Nat.ltb 1 n then
    (lit "File " ++ filename ++ lit " has " ++ str_of_nat n
       ++ lit " 'DO $$' blocks. Please check manually.")
    :: (if nested_pattern content_no_comments
        then [lit "  !!! POTENTIAL NESTING DETECTED in " ++ filename]
        else [])
  else [].

End CheckNesting.

(** ** extract_functions.py *)

Module Extract.

Definition is_commented (content : str) (match_start : nat) : bool :=
  let line_start := Z.to_nat (rfind_char nl content match_start + 1) in
  let line_prefix := slice content line_start match_start in
  contains (lit "--") line_prefix.

Definition spaces : regex := Plus true is_space.

(** [[.\w]] *)
Definition is_table_char (a : ascii) : bool := is_char "."%char a || is_word a.

(** [r'CREATE\s+(OR\s+REPLACE\s+)?FUNCTION'] with [re.IGNORECASE]. *)
Definition function_re : regex :=
  Seq (lit_re true (lit "CREATE"))
 (Seq spaces
 (Seq (Opt (Cap 1 (Seq (lit_re true (lit "OR"))
                  (Seq spaces
                  (Seq (lit_re true (lit "REPLACE")) spaces)))))
      (lit_re true (lit "FUNCTION")))).

(** [r'CREATE\s+TRIGGER\s+(\w+)\s+(?:.*?)\s+ON\s+([.\w]+)\s+(?:.*?);']
    with [re.DOTALL | re.IGNORECASE]. *)
Definition trigger_re : regex :=
  Seq (lit_re true (lit "CREATE"))
 (Seq spaces
 (Seq (lit_re true (lit "TRIGGER"))
 (Seq spaces
 (Seq (Cap 1 (Plus true is_word))
 (Seq spaces
 (Seq (Star false any_char)
 (Seq spaces
 (Seq (lit_re true (lit "ON"))
 (Seq spaces
 (Seq (Cap 2 (Plus true is_table_char))
 (Seq spaces
 (Seq (Star false any_char)
      (Chr (is_char ";"%char)))))))))))))).

Definition header (filename : str) : str :=
  lit "-- From " ++ filename ++ [nl].

(** Lines 29-44 for one [start] that passed the comment filter: the
    fragment appended to [functions_content], if any. *)
Definition function_fragment (filename content : str) (start : nat)
  : option str :=
  match find (lit "$$") (skipn start content) with
  | Some body_start_rel =>
      let body_start_abs := start + body_start_rel in
      match find (lit "$$") (skipn (body_start_abs + 2) content) with
      | Some i =>
          let body_end_rel := i + 2 in
          let body_end_abs := body_start_abs + 2 + body_end_rel in
          match find (lit ";") (skipn body_end_abs content) with
          | Some j =>
              let full_end := body_end_abs + (j + 1) in
              let func_def := slice content start full_end in
              Some (header filename ++ func_def ++ [nl])
          | None => None
          end
      | None => None
      end
  | None => None
  end.

(** Lines 25-44 for one [start]. *)
Definition function_step (filename content : str) (start : nat)
  : list str :=
  if is_commented content start then []
  else match function_fragment filename content start with
       | Some f => [f]
       | None => []
       end.

Definition function_starts (content : str) : list nat :=
  map m_start (finditer function_re content).

Definition drop_stmt (trigger_name table_name : str) : str :=
  lit "DROP TRIGGER IF EXISTS " ++ trigger_name ++ lit " ON "
    ++ table_name ++ lit ";".

(** Lines 49-64 for one match. *)
Definition trigger_step (filename content : str) (m : Match) : list str :=
  if is_commented content (m_start m) then []
  else
    let full_stmt := group0 content m in
    let trigger_name := group m 1 in
    let table_name := group m 2 in
    [header filename ++ drop_stmt trigger_name table_name ++ [nl]
       ++ full_stmt ++ [nl]].

(** What one file adds to [functions_content]. *)
Definition file_fragments (filename content : str) : list str :=
  flat_map (function_step filename content) (function_starts content)
  ++ flat_map (trigger_step filename content) (finditer trigger_re content).

(** A run of the script over the corpus: the lines printed and the text
    written to [functions_only.sql]. *)
Definition run (corpus : list (str * str)) : list str * str :=
  let functions_content :=
    flat_map (fun fc => file_fragments (fst fc) (snd fc)) corpus in
  ([lit "extracting functions from " ++ str_of_nat (length corpus)
      ++ lit " files...";
    lit "Successfully created supabase/dev/functions_only.sql"],
   join_nl functions_content).

End Extract.

(** * Specification vocabulary *)

(** ** What the matcher accepts

    [matches r w c c']: the pattern [r] accepts exactly the text [w], and
    takes the groups from [c] to [c'].  The matcher only ever returns texts
    the pattern accepts. *)

Inductive matches : regex -> str -> caps -> caps -> Prop :=
| M_Eps c : matches Eps [] c c
| M_Chr p x c : p x = true -> matches (Chr p) [x] c c
| M_Seq r1 r2 w1 w2 c c1 c2 :
    matches r1 w1 c c1 -> matches r2 w2 c1 c2 ->
    matches (Seq r1 r2) (w1 ++ w2) c c2
| M_Star g p w c : forallb p w = true -> matches (Star g p) w c c
| M_OptSome r w c c' : matches r w c c' -> matches (Opt r) w c c'
| M_OptNone r c : matches (Opt r) [] c c
| M_Cap n r w c c' :
    matches r w c c' -> matches (Cap n r) w c (set_cap n w c').

(** A pattern that accepts no empty text. *)
Definition nonempty (r : regex) : Prop :=
  forall w c c', matches r w c c' -> w <> [].

(** ** Character tests used in the statements *)

Definition not_A (a : ascii) : bool := negb (Ascii.eqb a "A"%char).

Definition not_nl (a : ascii) : bool := negb (Ascii.eqb a nl).

(** ** Output of the splicing script *)

(** The text the loop assembles, read off without the accumulator. *)
Fixpoint render (content : str) (ms : list Match) (last : nat) : str :=
  match ms with
  | [] => skipn last content
  | m :: ms' =>
      slice content last (m_start m)
      ++ ConsolidatedV2.part_for content m
      ++ render content ms' (m_end m)
  end.

(** ** The frame of a rewrite *)

(** A file cut at its statements: each segment is the text skipped before a
    statement, the statement, and what stands for it in the output. *)
Record Segment := mkSegment {
  seg_gap : str;
  seg_stmt : str;
  seg_repl : str
}.

Definition text_before (segs : list Segment) (tail : str) : str :=
  concat (map (fun s => seg_gap s ++ seg_stmt s) segs) ++ tail.

Definition text_after (segs : list Segment) (tail : str) : str :=
  concat (map (fun s => seg_gap s ++ seg_repl s) segs) ++ tail.

(** The statement is a publication statement, and it is either kept or
    replaced by the wrapper of its own table text. *)
Definition spliced (s : Segment) : Prop :=
  exists t,
    seg_stmt s = PHRASE ++ lit " " ++ t ++ lit ";"
    /\ (seg_repl s = seg_stmt s \/ seg_repl s = wrapped t).

(** ** Trigger statements *)

(** [w] spells the keyword [kw] in some mix of cases. *)
Definition keyword (kw w : str) : Prop := map to_lower w = map to_lower kw.

(** A non-empty run of white space. *)
Definition blanks (w : str) : Prop := w <> [] /\ forallb is_space w = true.

(** The anatomy of a trigger statement the pattern accepts, with the two
    names it captures. *)
Definition trigger_shape (stmt name table : str) : Prop :=
  exists k1 s1 k2 s2 s3 any1 s4 k3 s5 s6 any2,
    stmt = k1 ++ s1 ++ k2 ++ s2 ++ name ++ s3 ++ any1 ++ s4
              ++ k3 ++ s5 ++ table ++ s6 ++ any2 ++ lit ";"
    /\ keyword (lit "CREATE") k1 /\ keyword (lit "TRIGGER") k2
    /\ keyword (lit "ON") k3
    /\ blanks s1 /\ blanks s2 /\ blanks s3 /\ blanks s4 /\ blanks s5
    /\ blanks s6
    /\ name <> [] /\ forallb is_word name = true
    /\ table <> [] /\ forallb Extract.is_table_char table = true.

(** ** Files that are already wrapped *)

(** The eight lines of the wrapper. *)
Definition wrapper_lines (t : str) : list str :=
  [lit "DO $$";
   lit "BEGIN";
   lit "  BEGIN";
   lit "    ALTER PUBLICATION supabase_realtime ADD TABLE " ++ t ++ lit ";";
   lit "  EXCEPTION WHEN duplicate_object THEN";
   lit "    NULL;";
   lit "  END;";
   lit "END $$;"].

(** Every line that holds the phrase is the fourth line of a wrapper. *)
Definition all_wrapped (lines : list str) : Prop :=
  forall i line,
    nth_error lines i = Some line ->
    contains PHRASE line = true ->
    exists t, 3 <= i /\ slice lines (i - 3) (i + 5) = wrapper_lines t.

(** ** The wrapper in parts *)

(** What a wrapper puts before the statement and after it. *)
Definition wrap_head : str :=
  lit "DO $$" ++ nl :: lit "BEGIN" ++ nl :: lit "  BEGIN" ++ nl :: lit "    ".

Definition wrap_tail : str :=
  nl :: lit "  EXCEPTION WHEN duplicate_object THEN" ++ nl ::
  lit "    NULL;" ++ nl ::
  lit "  END;" ++ nl ::
  lit "END $$;".

(** The statement for the table text [t]. *)
Definition statement (t : str) : str := PHRASE ++ lit " " ++ t ++ lit ";".

(** ** Look-back conditions of the in-place script *)

(** No line closes a block in the ten lines before a line that holds the
    phrase. *)
Definition no_end_before (lines : list str) : Prop :=
  forall i line j l,
    nth_error lines i = Some line ->
    contains PHRASE line = true ->
    i - 10 <= j -> j < i ->
    nth_error lines j = Some l ->
    contains (lit "END $$") l = false.

(** No line opens a block in the ten lines before line [i]. *)
Definition no_do_before (lines : list str) (i : nat) : Prop :=
  forall j l,
    i - 10 <= j -> j < i ->
    nth_error lines j = Some l ->
    contains (lit "DO $$") l = false.

(** ** Lines without their comment *)

(** A line cut at its first [--]. *)
Definition cut_comment (line : str) : str :=
  match find (lit "--") line with
  | Some i => firstn i line
  | None => line
  end.

(** ** Function bodies *)

(** [x] holds no [$$] and does not end in [$]: a marker placed right after
    [x] is the first one. *)
Definition marker_free (x : str) : Prop :=
  contains (lit "$$") (x ++ lit "$") = false.

(** ** Re-scanning the output of the splicing script *)

(** The fixed text a statement starts with. *)
Definition stmt_prefix : str := PHRASE ++ lit " ".

(** No statement starts inside [g] when [y] follows it. *)
Definition clear (g y : str) : Prop :=
  forall g1 g2,
    g = g1 ++ g2 -> g2 <> [] -> match_here alter_re (g2 ++ y) = None.

(** No proper end of [stmt_prefix] is a start of [y]. *)
Definition no_overlap (y : str) : bool :=
  forallb (fun k => negb (starts_with (skipn k stmt_prefix) y))
          (seq 1 (length stmt_prefix - 1)).

(** No [$$] lies across the seam between [x] and [y]. *)
Definition seam_clean (x y : str) : bool :=
  negb (Ascii.eqb (last x " "%char) "$"%char
        && Ascii.eqb (hd " "%char y) "$"%char).

(** Markers are counted in [p] without regard to what follows it. *)
Definition count_closed (p : str) : Prop :=
  forall y, count (lit "$$") (p ++ y)
            = count (lit "$$") p + count (lit "$$") y.

(** * Sample texts *)

(** ** Sample migration texts *)

Definition stmt_t1 : str :=
  lit "ALTER PUBLICATION supabase_realtime ADD TABLE t1;".

(** A bare statement followed by a lone marker: one [$$] in the file. *)
Definition odd_markers : str := stmt_t1 ++ nl :: lit "$$".

(** A statement inside a block that has no exception handler. *)
Definition unguarded_block : str :=
  lit "DO $$ BEGIN" ++ nl :: stmt_t1 ++ nl :: lit "END $$;".

(** A bare statement below a comment that mentions the marker. *)
Definition marker_in_comment : str := lit "-- $$" ++ nl :: stmt_t1.

Definition no_marker_in_comment : str := lit "-- " ++ nl :: stmt_t1.

(** ** Sample files for the in-place script *)

Definition stmt_t2 : str :=
  lit "ALTER PUBLICATION supabase_realtime ADD TABLE t2;".

(** Two wrapped statements, one block right after the other. *)
Definition two_wrapped : str :=
  wrapped (lit "t1") ++ nl :: wrapped (lit "t2").

(** The second block of [two_wrapped] after another run: its statement line
    has become a whole wrapper. *)
Definition second_rewrapped : str :=
  lit "DO $$" ++ nl ::
  lit "BEGIN" ++ nl ::
  lit "  BEGIN" ++ nl ::
  wrapped (lit "t2") ++ nl ::
  lit "  EXCEPTION WHEN duplicate_object THEN" ++ nl ::
  lit "    NULL;" ++ nl ::
  lit "  END;" ++ nl ::
  lit "END $$;".

(** Two files that differ in their first line only: one closes a block
    there, the other does not.  Line 9 opens a block, lines 10 and 11 hold
    a statement each. *)
Definition window_tail : list str :=
  repeat [] 8 ++ [lit "DO $$"; stmt_t1; stmt_t2].

Definition file_closing : list str := lit "END $$;" :: window_tail.

Definition file_plain : list str := lit "-- setup" :: window_tail.

(** A statement that shares its line with other statements. *)
Definition inline_stmt : str :=
  lit "SELECT 1; " ++ stmt_t1 ++ lit " SELECT 2;".

(** A statement that was commented out. *)
Definition commented_stmt : str := lit "-- " ++ stmt_t1.

(** ** Sample function definitions *)

(** A function whose body is opened and never closed. *)
Definition truncated_fn : str :=
  lit "CREATE FUNCTION f() RETURNS void AS $$ BEGIN".

Definition complete_fn : str :=
  lit "CREATE FUNCTION f() RETURNS void AS $$ BEGIN END $$ LANGUAGE plpgsql;".

Definition sample_trigger : str :=
  lit "CREATE TRIGGER trg AFTER INSERT ON public.t FOR EACH ROW EXECUTE FUNCTION f();".

(** A trigger statement below a commented-out one that has no terminator
    on its line. *)
Definition trigger_after_comment : str :=
  lit "-- CREATE TRIGGER old AFTER INSERT ON public.t" ++ nl :: sample_trigger.

(** * Properties *)

(** ** Text primitives *)

Section TextFacts.

Lemma starts_with_app (p t : str) : starts_with p (p ++ t) = true.
Proof.
  induction p as [|a p IH]; simpl; [reflexivity|].
  now rewrite Ascii.eqb_refl, IH.
Qed.

Lemma starts_with_inv (p s : str) :
  starts_with p s = true -> exists t, s = p ++ t.
Proof.
  revert s; induction p as [|a p IH]; intros s H.
  - now exists s.
  - destruct s as [|b s]; simpl in H; [discriminate|].
    apply andb_true_iff in H as [Hab Hps].
    apply Ascii.eqb_eq in Hab; subst b.
    destruct (IH _ Hps) as [t ->]. now exists t.
Qed.

Lemma find_some (p s : str) (i : nat) :
  find p s = Some i ->
  exists a b, s = a ++ p ++ b /\ length a = i.
Proof.
  revert i; induction s as [|c s IH]; intros i H; simpl in H.
  - destruct (starts_with p []) eqn:E; [|discriminate].
    injection H as <-. apply starts_with_inv in E as [t E].
    now exists [], t.
  - destruct (starts_with p (c :: s)) eqn:E.
    + injection H as <-. apply starts_with_inv in E as [t E].
      now exists [], t.
    + destruct (find p s) as [j|] eqn:F; [|discriminate].
      injection H as <-.
      destruct (IH j eq_refl) as (a & b & -> & <-).
      now exists (c :: a), b.
Qed.

Lemma find_app (p a b : str) : exists i, find p (a ++ p ++ b) = Some i.
Proof.
  induction a as [|c a [i IH]]; simpl.
  - destruct p; simpl.
    + destruct b; now exists 0.
    + rewrite Ascii.eqb_refl, starts_with_app. now exists 0.
  - destruct (starts_with p (c :: a ++ p ++ b)); [now exists 0|].
    rewrite IH. now exists (S i).
Qed.

Lemma contains_iff (p s : str) :
  contains p s = true <-> exists a b, s = a ++ p ++ b.
Proof.
  unfold contains; split.
  - destruct (find p s) as [i|] eqn:F; [|discriminate].
    intros _. destruct (find_some _ _ _ F) as (a & b & E & _). eauto.
  - intros (a & b & ->). destruct (find_app p a b) as [i ->]. reflexivity.
Qed.

Lemma contains_app_l (p s t : str) :
  contains p s = true -> contains p (s ++ t) = true.
Proof.
  rewrite !contains_iff. intros (a & b & ->).
  exists a, (b ++ t). now rewrite <- !app_assoc.
Qed.

Lemma contains_app_r (p s t : str) :
  contains p t = true -> contains p (s ++ t) = true.
Proof.
  rewrite !contains_iff. intros (a & b & ->).
  exists (s ++ a), b. now rewrite <- !app_assoc.
Qed.

Lemma contains_cons (p : str) (c : ascii) (s : str) :
  contains p s = true -> contains p (c :: s) = true.
Proof. apply (contains_app_r p [c] s). Qed.

Lemma join_nl_cons (l : str) (ls : list str) :
  ls <> [] -> join_nl (l :: ls) = l ++ nl :: join_nl ls.
Proof. destruct ls; [congruence | reflexivity]. Qed.

Lemma split_nl_nonempty (s : str) : split_nl s <> [].
Proof.
  destruct s as [|c s]; simpl; [discriminate|].
  destruct (Ascii.eqb c nl); [discriminate|].
  destruct (split_nl s); discriminate.
Qed.

(** Splitting at newlines and joining again gives the text back. *)
Lemma join_split (s : str) : join_nl (split_nl s) = s.
Proof.
  induction s as [|c s IH]; [reflexivity|].
  simpl. destruct (Ascii.eqb c nl) eqn:E.
  - apply Ascii.eqb_eq in E; subst c.
    rewrite join_nl_cons by apply split_nl_nonempty.
    simpl. now rewrite IH.
  - pose proof (split_nl_nonempty s) as Hne.
    destruct (split_nl s) as [|l ls]; [congruence|].
    destruct ls as [|l' ls].
    + simpl in *. now rewrite IH.
    + rewrite join_nl_cons in IH by discriminate.
      rewrite join_nl_cons by discriminate.
      now rewrite <- IH.
Qed.

Lemma contains_join (p l : str) (ls : list str) :
  In l ls -> contains p l = true -> contains p (join_nl ls) = true.
Proof.
  induction ls as [|x ls IH]; [contradiction|].
  intros [->|Hin] Hc.
  - destruct ls; [exact Hc|].
    rewrite join_nl_cons by discriminate. now apply contains_app_l.
  - destruct ls as [|y ls]; [contradiction|].
    rewrite join_nl_cons by discriminate.
    apply contains_app_r, contains_cons. now apply IH.
Qed.

Lemma slice_app_mid {A} (a w b : list A) :
  slice (a ++ w ++ b) (length a) (length a + length w) = w.
Proof.
  unfold slice. rewrite skipn_app, skipn_all, Nat.sub_diag. simpl.
  replace (length a + length w - length a) with (length w) by lia.
  rewrite firstn_app, firstn_all, Nat.sub_diag. simpl. apply app_nil_r.
Qed.

Lemma nth_error_set_nth_eq {A} (ws : list A) (i : nat) (v : A) :
  i < length ws -> nth_error (set_nth ws i v) i = Some v.
Proof.
  revert i; induction ws as [|x ws IH]; intros [|i] H; simpl in *;
    try lia; [reflexivity|]. apply IH. lia.
Qed.

Lemma nth_error_set_nth_neq {A} (ws : list A) (i j : nat) (v : A) :
  i <> j -> nth_error (set_nth ws i v) j = nth_error ws j.
Proof.
  revert i j; induction ws as [|x ws IH]; intros [|i] [|j] H; simpl;
    try reflexivity; try congruence. apply IH. congruence.
Qed.

Lemma length_set_nth {A} (ws : list A) (i : nat) (v : A) :
  length (set_nth ws i v) = length ws.
Proof.
  revert i; induction ws as [|x ws IH]; intros [|i]; simpl; auto.
Qed.

End TextFacts.

(** ** The matcher returns accepted texts *)

Section MatcherFacts.

Lemma star_greedy_sound {R} p (k : str -> option R) s res :
  star_greedy p k s = Some res ->
  exists w s', s = w ++ s' /\ forallb p w = true /\ k s' = Some res.
Proof.
  revert res; induction s as [|x t IH]; intros res H; simpl in H.
  - now exists [], [].
  - destruct (p x) eqn:Px; [|now exists [], (x :: t)].
    destruct (star_greedy p k t) as [r|] eqn:G.
    + injection H as ->.
      destruct (IH _ eq_refl) as (w & s' & -> & Hw & Hk).
      exists (x :: w), s'. simpl. now rewrite Px, Hw.
    + now exists [], (x :: t).
Qed.

Lemma star_lazy_sound {R} p (k : str -> option R) s res :
  star_lazy p k s = Some res ->
  exists w s', s = w ++ s' /\ forallb p w = true /\ k s' = Some res.
Proof.
  revert res; induction s as [|x t IH]; intros res H; simpl in H.
  - destruct (k []) eqn:K; [|discriminate].
    injection H as ->. now exists [], [].
  - destruct (k (x :: t)) eqn:K;
      [injection H as ->; now exists [], (x :: t)|].
    destruct (p x) eqn:Px; [|discriminate].
    destruct (IH _ H) as (w & s' & -> & Hw & Hk).
    exists (x :: w), s'. simpl. now rewrite Px, Hw.
Qed.

Lemma firstn_consumed (w s' : str) :
  firstn (length (w ++ s') - length s') (w ++ s') = w.
Proof.
  rewrite length_app, Nat.add_sub, firstn_app, Nat.sub_diag, firstn_all.
  simpl. apply app_nil_r.
Qed.

(** Soundness of the backtracking matcher. *)
Lemma bt_sound {R} (r : regex) :
  forall s c (k : str -> caps -> option R) res,
    bt r s c k = Some res ->
    exists w s' c',
      s = w ++ s' /\ matches r w c c' /\ k s' c' = Some res.
Proof.
  induction r as [|p|r1 IH1 r2 IH2|g p|r1 IH1|n r1 IH1];
    intros s c k res H; simpl in H.
  - exists [], s, c. repeat split; [constructor | exact H].
  - destruct s as [|x t]; [discriminate|].
    destruct (p x) eqn:Px; [|discriminate].
    exists [x], t, c. repeat split; [now constructor | exact H].
  - destruct (IH1 _ _ _ _ H) as (w1 & s1 & c1 & -> & M1 & H1).
    destruct (IH2 _ _ _ _ H1) as (w2 & s2 & c2 & -> & M2 & H2).
    exists (w1 ++ w2), s2, c2. rewrite <- app_assoc.
    repeat split; [econstructor; eassumption | exact H2].
  - destruct g.
    + destruct (star_greedy_sound _ _ _ _ H) as (w & s' & -> & Hw & Hk).
      exists w, s', c. repeat split; [now constructor | exact Hk].
    + destruct (star_lazy_sound _ _ _ _ H) as (w & s' & -> & Hw & Hk).
      exists w, s', c. repeat split; [now constructor | exact Hk].
  - destruct (bt r1 s c k) as [x|] eqn:B.
    + injection H as ->.
      destruct (IH1 _ _ _ _ B) as (w & s' & c' & -> & M & Hk).
      exists w, s', c'. repeat split; [now constructor | exact Hk].
    + exists [], s, c. repeat split; [apply M_OptNone | exact H].
  - destruct (IH1 _ _ _ _ H) as (w & s' & c' & -> & M & Hk).
    rewrite firstn_consumed in Hk.
    exists w, s', (set_cap n w c'). repeat split;
      [now constructor | exact Hk].
Qed.

Lemma match_here_sound r s s' c :
  match_here r s = Some (s', c) ->
  exists w, s = w ++ s' /\ matches r w no_caps c.
Proof.
  intros H. apply bt_sound in H as (w & s1 & c1 & -> & M & E).
  injection E as <- <-. now exists w.
Qed.

(** A successful search splits its subject around an accepted text. *)
Lemma search_at_sound r s pos m :
  search_at r s pos = Some m ->
  exists a w b,
    s = a ++ w ++ b /\ matches r w no_caps (m_groups m)
    /\ m_start m = pos + length a
    /\ m_end m = pos + length a + length w.
Proof.
  assert (Hhere : forall s pos s' c,
    match_here r s = Some (s', c) ->
    exists a w b,
      s = a ++ w ++ b /\ matches r w no_caps c
      /\ pos = pos + length a
      /\ pos + (length s - length s') = pos + length a + length w).
  { intros s0 pos0 s' c E.
    destruct (match_here_sound _ _ _ _ E) as (w & -> & M).
    exists [], w, s'. rewrite length_app. simpl.
    repeat split; auto; lia. }
  revert pos; induction s as [|x t IH]; intros pos H; simpl in H.
  - destruct (match_here r []) as [[s' c]|] eqn:E; [|discriminate].
    injection H as <-. exact (Hhere _ pos _ _ E).
  - destruct (match_here r (x :: t)) as [[s' c]|] eqn:E.
    + injection H as <-. exact (Hhere _ pos _ _ E).
    + destruct (IH _ H) as (a & w & b & -> & M & Hst & Hen).
      exists (x :: a), w, b. simpl. repeat split; auto; lia.
Qed.

Lemma search_at_bounds r s pos m :
  nonempty r -> search_at r s pos = Some m ->
  pos <= m_start m /\ m_start m < m_end m /\ m_end m <= pos + length s.
Proof.
  intros Hne H.
  destruct (search_at_sound _ _ _ _ H) as (a & w & b & -> & M & Hs & He).
  apply Hne in M. rewrite !length_app.
  destruct w; [congruence|]. simpl in *. lia.
Qed.

(** The rounds allowed to [finditer] are enough: one more changes
    nothing. *)
Lemma finditer_from_enough r content :
  nonempty r ->
  forall fuel pos,
    length content - pos < fuel ->
    finditer_from (S fuel) r content pos = finditer_from fuel r content pos.
Proof.
  intros Hne. induction fuel as [|f IH]; intros pos Hf; [lia|].
  change (finditer_from (S (S f)) r content pos)
    with (match search_at r (skipn pos content) pos with
          | None => []
          | Some m => m :: finditer_from (S f) r content (m_end m)
          end).
  change (finditer_from (S f) r content pos)
    with (match search_at r (skipn pos content) pos with
          | None => []
          | Some m => m :: finditer_from f r content (m_end m)
          end).
  destruct (search_at r (skipn pos content) pos) as [m|] eqn:E;
    [|reflexivity].
  f_equal. apply IH.
  pose proof (search_at_bounds _ _ _ _ Hne E) as (H1 & H2 & H3).
  rewrite length_skipn in H3. lia.
Qed.

(** Every match [finditer] yields lies in the subject, after the position
    the iteration started from. *)
Lemma finditer_from_sound r content :
  forall fuel pos m,
    pos <= length content ->
    In m (finditer_from fuel r content pos) ->
    exists a w b,
      content = a ++ w ++ b /\ matches r w no_caps (m_groups m)
      /\ pos <= length a
      /\ m_start m = length a /\ m_end m = length a + length w.
Proof.
  induction fuel as [|f IH]; intros pos m Hpos Hin; [contradiction|].
  simpl in Hin.
  destruct (search_at r (skipn pos content) pos) as [m0|] eqn:E;
    [|contradiction].
  destruct (search_at_sound _ _ _ _ E) as (a & w & b & Hs & M & Hst & Hen).
  assert (Hc : content = (firstn pos content ++ a) ++ w ++ b).
  { rewrite <- app_assoc, <- Hs. symmetry. apply firstn_skipn. }
  assert (Hl : length (firstn pos content ++ a) = pos + length a).
  { rewrite length_app, length_firstn. lia. }
  destruct Hin as [<-|Hin].
  - exists (firstn pos content ++ a), w, b.
    rewrite Hl. repeat split; auto; lia.
  - assert (Hle : m_end m0 <= length content).
    { rewrite Hc, length_app, Hl, length_app. lia. }
    destruct (IH _ _ Hle Hin) as (a' & w' & b' & Hc' & M' & Hp' & Hs' & He').
    exists a', w', b'. repeat split; auto. lia.
Qed.

End MatcherFacts.

(** ** The patterns of the scripts *)

Section PatternFacts.

Lemma matches_seq r1 r2 w c c' :
  matches (Seq r1 r2) w c c' ->
  exists w1 w2 c1,
    w = w1 ++ w2 /\ matches r1 w1 c c1 /\ matches r2 w2 c1 c'.
Proof. intros H. inversion H; subst. eauto 7. Qed.

Lemma matches_chr p w c c' :
  matches (Chr p) w c c' -> exists x, w = [x] /\ p x = true /\ c' = c.
Proof. intros H. inversion H; subst. eauto. Qed.

Lemma matches_star g p w c c' :
  matches (Star g p) w c c' -> forallb p w = true /\ c' = c.
Proof. intros H. inversion H; subst. auto. Qed.

Lemma matches_cap n r w c c' :
  matches (Cap n r) w c c' ->
  exists c1, matches r w c c1 /\ c' = set_cap n w c1.
Proof. intros H. inversion H; subst. eauto. Qed.

Lemma matches_opt r w c c' :
  matches (Opt r) w c c' -> matches r w c c' \/ (w = [] /\ c' = c).
Proof. intros H. inversion H; subst; auto. Qed.

Lemma matches_eps w c c' : matches Eps w c c' -> w = [] /\ c' = c.
Proof. intros H. inversion H; subst; auto. Qed.

Lemma matches_lit_cs (l w : str) c c' :
  matches (lit_re false l) w c c' -> w = l /\ c' = c.
Proof.
  revert w c c'; induction l as [|a l IH]; intros w c c' H.
  - now apply matches_eps in H.
  - apply matches_seq in H as (w1 & w2 & c1 & -> & H1 & H2).
    apply matches_chr in H1 as (x & -> & Hx & ->).
    apply IH in H2 as [-> ->].
    apply Ascii.eqb_eq in Hx. subst. now split.
Qed.

Lemma matches_lit_ci (l w : str) c c' :
  matches (lit_re true l) w c c' ->
  map to_lower w = map to_lower l /\ c' = c.
Proof.
  revert w c c'; induction l as [|a l IH]; intros w c c' H.
  - apply matches_eps in H as [-> ->]. now split.
  - apply matches_seq in H as (w1 & w2 & c1 & -> & H1 & H2).
    apply matches_chr in H1 as (x & -> & Hx & ->).
    apply IH in H2 as [E ->].
    apply Ascii.eqb_eq in Hx. simpl. now rewrite E, Hx.
Qed.

Lemma matches_plus g p w c c' :
  matches (Plus g p) w c c' ->
  w <> [] /\ forallb p w = true /\ c' = c.
Proof.
  intros H.
  apply matches_seq in H as (w1 & w2 & c1 & -> & H1 & H2).
  apply matches_chr in H1 as (x & -> & Hx & ->).
  apply matches_star in H2 as (Hw & ->).
  simpl. rewrite Hx, Hw. repeat split. discriminate.
Qed.

(** What [alter_re] accepts: the phrase, a blank, a non-empty table text
    free of [;], and the [;]; group 1 is the table text. *)
Lemma matches_alter w c c' :
  matches alter_re w c c' ->
  exists t, w = PHRASE ++ lit " " ++ t ++ lit ";"
            /\ t <> [] /\ forallb not_semicolon t = true
            /\ c' = set_cap 1 t c.
Proof.
  intros H.
  apply matches_seq in H as (w1 & w2 & c1 & -> & H1 & H2).
  apply matches_lit_cs in H1 as [-> ->].
  apply matches_seq in H2 as (w3 & w4 & c3 & -> & H3 & H4).
  apply matches_cap in H3 as (c5 & H5 & ->).
  apply matches_plus in H5 as (Hne & Hall & ->).
  apply matches_chr in H4 as (x & -> & Hx & ->).
  apply Ascii.eqb_eq in Hx. subst x.
  exists w3. rewrite <- !app_assoc. repeat split; auto.
Qed.

Lemma alter_nonempty : nonempty alter_re.
Proof.
  intros w c c' H E. apply matches_alter in H as (t & -> & _).
  discriminate E.
Qed.

Lemma group_alter m t :
  m_groups m = set_cap 1 t no_caps -> group m 1 = t.
Proof. intros E. unfold group. now rewrite E. Qed.

Lemma bt_lit_cs {R} (l s : str) c (k : str -> caps -> option R) :
  bt (lit_re false l) (l ++ s) c k = k s c.
Proof.
  revert c k; induction l as [|a l IH]; intros c k; simpl; [reflexivity|].
  unfold is_char. now rewrite Ascii.eqb_refl, IH.
Qed.

Lemma star_greedy_run {R} p (k : str -> option R) (w : str) y rest r :
  forallb p w = true -> p y = false -> k (y :: rest) = Some r ->
  star_greedy p k (w ++ y :: rest) = Some r.
Proof.
  intros Hw Hy Hk. induction w as [|x w IH]; simpl.
  - now rewrite Hy.
  - simpl in Hw. apply andb_true_iff in Hw as [Px Hw].
    now rewrite Px, (IH Hw).
Qed.

(** The pattern matches a well-formed statement placed at the head of the
    subject, with its table text as group 1. *)
Lemma alter_match_here (t rest : str) :
  t <> [] -> forallb not_semicolon t = true ->
  match_here alter_re (PHRASE ++ lit " " ++ t ++ lit ";" ++ rest)
  = Some (rest, set_cap 1 t no_caps).
Proof.
  intros Hne Ht. unfold match_here, alter_re.
  change (bt (Seq ?a ?b) ?s ?c ?k)
    with (bt a s c (fun s1 c1 => bt b s1 c1 k)).
  rewrite app_assoc, bt_lit_cs.
  destruct t as [|x t]; [congruence|].
  simpl in Ht. apply andb_true_iff in Ht as [Px Ht].
  cbn [bt Plus app]. rewrite Px.
  change (lit ";" ++ rest) with (";"%char :: rest).
  erewrite star_greedy_run; [reflexivity | exact Ht | reflexivity |].
  unfold is_char. rewrite Ascii.eqb_refl.
  change (x :: t ++ ";"%char :: rest) with ((x :: t) ++ ";"%char :: rest).
  now rewrite firstn_consumed.
Qed.

Lemma alter_no_match_here (x : ascii) (s : str) :
  not_A x = true -> match_here alter_re (x :: s) = None.
Proof.
  intros Hx. unfold match_here, alter_re.
  change (PHRASE ++ lit " ") with ("A"%char :: tl (PHRASE ++ lit " ")).
  cbn [lit_re bt]. unfold is_char.
  unfold not_A in Hx. rewrite Ascii.eqb_sym.
  now destruct (Ascii.eqb x "A"%char).
Qed.

Lemma search_at_here r s pos s' c :
  match_here r s = Some (s', c) ->
  search_at r s pos = Some (mkMatch pos (pos + (length s - length s')) c).
Proof. intros H. destruct s; simpl; now rewrite H. Qed.

(** The search finds a statement that no capital A precedes. *)
Lemma alter_search (pre t rest : str) (pos : nat) :
  forallb not_A pre = true ->
  t <> [] -> forallb not_semicolon t = true ->
  exists m,
    search_at alter_re (pre ++ PHRASE ++ lit " " ++ t ++ lit ";" ++ rest)
      pos = Some m
    /\ m_start m = pos + length pre /\ group m 1 = t.
Proof.
  intros Hpre Hne Ht. revert pos.
  induction pre as [|x pre IH]; intros pos.
  - change ([] ++ ?s) with s.
    rewrite (search_at_here _ _ _ _ _ (alter_match_here t rest Hne Ht)).
    eexists. repeat split; simpl; lia.
  - simpl in Hpre. apply andb_true_iff in Hpre as [Hx Hpre].
    change ((x :: pre) ++ ?s) with (x :: pre ++ s).
    cbn [search_at]. rewrite (alter_no_match_here _ _ Hx).
    destruct (IH Hpre (S pos)) as (m & -> & Hs & Hg).
    exists m. repeat split; auto. simpl. lia.
Qed.

End PatternFacts.

(** ** generate_consolidated_v2.py: the shape of the output *)

Section V2Facts.

Import ConsolidatedV2.

Lemma loop_render content ms :
  forall last parts,
    join_empty (snd (loop content ms last parts)
                ++ [skipn (fst (loop content ms last parts)) content])
    = join_empty parts ++ render content ms last.
Proof.
  unfold join_empty.
  induction ms as [|m ms IH]; intros last parts; simpl.
  - now rewrite concat_app; simpl; rewrite app_nil_r.
  - rewrite IH, !concat_app. simpl. now rewrite !app_nil_r, <- !app_assoc.
Qed.

Lemma transform_render content :
  contains PHRASE content = true ->
  transform content = render content (finditer alter_re content) 0.
Proof.
  intros H. unfold transform. rewrite H.
  pose proof (loop_render content (finditer alter_re content) 0 []) as L.
  destruct (loop content (finditer alter_re content) 0 []) as [l p].
  exact L.
Qed.

Lemma render_member content m ms :
  In m ms ->
  forall last, exists before after,
    render content ms last = before ++ part_for content m ++ after.
Proof.
  induction ms as [|m0 ms IH]; [contradiction|].
  intros [->|Hin] last; simpl.
  - now exists (slice content last (m_start m)), (render content ms (m_end m)).
  - destruct (IH Hin (m_end m0)) as (b & a & ->).
    exists (slice content last (m_start m0) ++ part_for content m0 ++ b), a.
    now rewrite <- !app_assoc.
Qed.

(** A match found from [pos] on cuts the subject into the text skipped, the
    statement and the rest. *)
Lemma search_at_slices r content pos m :
  pos <= length content ->
  search_at r (skipn pos content) pos = Some m ->
  exists a w b,
    skipn pos content = a ++ w ++ b
    /\ slice content pos (m_start m) = a
    /\ slice content (m_start m) (m_end m) = w
    /\ skipn (m_end m) content = b
    /\ matches r w no_caps (m_groups m)
    /\ pos <= m_start m /\ m_end m <= length content.
Proof.
  intros Hpos H.
  destruct (search_at_sound _ _ _ _ H) as (a & w & b & Hs & M & Hst & Hen).
  exists a, w, b. unfold slice. rewrite Hst, Hen.
  assert (Hlen : length content = pos + length (a ++ w ++ b)).
  { rewrite <- Hs, length_skipn. lia. }
  rewrite !length_app in Hlen.
  repeat split; auto; try lia.
  - replace (pos + length a - pos) with (length a) by lia.
    rewrite Hs, firstn_app, firstn_all, Nat.sub_diag. simpl.
    apply app_nil_r.
  - replace (pos + length a + length w - (pos + length a))
      with (length w) by lia.
    rewrite Nat.add_comm, <- skipn_skipn, Hs.
    rewrite skipn_app, skipn_all, Nat.sub_diag. simpl.
    rewrite firstn_app, firstn_all, Nat.sub_diag. simpl. apply app_nil_r.
  - replace (pos + length a + length w) with (length w + (length a + pos))
      by lia.
    rewrite <- !skipn_skipn, Hs.
    rewrite skipn_app, skipn_all, Nat.sub_diag. simpl.
    rewrite skipn_app, skipn_all, Nat.sub_diag. reflexivity.
Qed.

Lemma finditer_alter_contains content m :
  In m (finditer alter_re content) -> contains PHRASE content = true.
Proof.
  intros H. apply finditer_from_sound in H; [|lia].
  destruct H as (a & w & b & -> & M & _).
  apply matches_alter in M as (t & -> & _).
  apply contains_iff. exists a, (lit " " ++ t ++ lit ";" ++ b).
  now rewrite <- !app_assoc.
Qed.


Lemma in_do_block_odd content start :
  in_do_block content start = Nat.odd (dollar_count content start).
Proof.
  unfold in_do_block.
  destruct (Nat.odd (dollar_count content start)) eqn:E.
  - apply Nat.odd_spec in E as [k Hk].
    now rewrite Hk, Nat.add_comm, Nat.mul_comm, Nat.Div0.mod_add.
  - rewrite <- Nat.negb_even in E. apply negb_false_iff in E.
    apply Nat.even_spec in E as [k Hk].
    now rewrite Hk, Nat.mul_comm, Nat.Div0.mod_mul.
Qed.

End V2Facts.

(** ** generate_consolidated_v2.py: claims *)

Section V2Claims.

Import ConsolidatedV2.


(** C3, as stated, fails: a statement one level down, in a block that lacks
    the guarded shape, is classified as already wrapped, not as ambiguous,
    and is kept by the splicing script; [generate_consolidated.py] rewrites
    the same statement, putting a wrapper inside the block. *)
Lemma C3_unguarded_block_already_wrapped :
  (exists m,
      re_search alter_re unguarded_block = Some m
      /\ dollar_count unguarded_block (m_start m) = 1
      /\ contains (lit "EXCEPTION") unguarded_block = false
      /\ decision unguarded_block m = AlreadyWrapped
      /\ decision unguarded_block m <> Ambiguous)
  /\ transform unguarded_block = unguarded_block
  /\ Consolidated.transform unguarded_block
     = lit "DO $$ BEGIN" ++ nl :: wrapped (lit "t1") ++ nl :: lit "END $$;".
Proof.
  split.
  - eexists. split; [reflexivity|].
    repeat split; try reflexivity. vm_compute. discriminate.
  - split; vm_compute; reflexivity.
Qed.

(** C5 on the code: a [$$] inside a line comment is counted as a delimiter.
    The comment-stripped text has no marker, yet the statement below the
    comment is taken to be inside a block and is left bare; without the
    marker in the comment it is wrapped. *)
Theorem C5_marker_in_comment_counts :
  count (lit "$$") (strip_comments marker_in_comment) = 0
  /\ dollar_count marker_in_comment 6 = 1
  /\ transform marker_in_comment = marker_in_comment
  /\ transform no_marker_in_comment
     = lit "-- " ++ nl :: wrapped (lit "t1").
Proof. repeat split; vm_compute; reflexivity. Qed.

End V2Claims.

(** ** fix_all_migrations.py: the working list *)

Section FixAllFacts.

Import FixAll.

Lemma loop_upto_S lines n :
  loop_upto lines (S n) = step (loop_upto lines n) n.
Proof. unfold loop_upto. now rewrite seq_S, fold_left_app. Qed.

Lemma slice_ext {A} (l1 l2 : list A) (a b : nat) :
  (forall j, a <= j -> j < b -> nth_error l1 j = nth_error l2 j) ->
  slice l1 a b = slice l2 a b.
Proof.
  intros H. apply nth_error_ext. intros k. unfold slice.
  rewrite !nth_error_firstn, !nth_error_skipn.
  destruct (k <? b - a) eqn:E; [|reflexivity].
  apply Nat.ltb_lt in E. apply H; lia.
Qed.

Lemma step_length st i : length (fst (step st i)) = length (fst st).
Proof.
  destruct st as [ws b]. unfold step.
  destruct (nth_error ws i) as [line|]; [|reflexivity].
  destruct (replacement ws i line); [|reflexivity].
  apply length_set_nth.
Qed.

Lemma step_other st i j :
  i <> j -> nth_error (fst (step st i)) j = nth_error (fst st) j.
Proof.
  intros Hij. destruct st as [ws b]. unfold step.
  destruct (nth_error ws i) as [line|]; [|reflexivity].
  destruct (replacement ws i line); [|reflexivity].
  now apply nth_error_set_nth_neq.
Qed.

Lemma step_here st i line :
  nth_error (fst st) i = Some line ->
  nth_error (fst (step st i)) i
  = Some (match replacement (fst st) i line with
          | Some w => w
          | None => line
          end).
Proof.
  destruct st as [ws b]. simpl. intros H. unfold step. rewrite H.
  destruct (replacement ws i line); [|exact H].
  apply nth_error_set_nth_eq. apply nth_error_Some. congruence.
Qed.

Lemma loop_upto_length lines n :
  length (fst (loop_upto lines n)) = length lines.
Proof.
  induction n as [|n IH]; [reflexivity|].
  now rewrite loop_upto_S, step_length.
Qed.

(** Entries not yet visited still hold the input lines. *)
Lemma loop_upto_ahead lines n j :
  n <= j -> nth_error (fst (loop_upto lines n)) j = nth_error lines j.
Proof.
  induction n as [|n IH]; intros H; [reflexivity|].
  rewrite loop_upto_S, step_other by lia. apply IH. lia.
Qed.

(** An entry is settled once its round is over. *)
Lemma loop_upto_behind lines n j :
  j < n ->
  nth_error (fst (loop_upto lines n)) j
  = nth_error (fst (loop_upto lines (S j))) j.
Proof.
  induction n as [|n IH]; intros H; [lia|].
  destruct (Nat.eq_dec j n) as [->|Hne]; [reflexivity|].
  rewrite loop_upto_S, step_other by lia. apply IH. lia.
Qed.

(** The settled entry is the wrapper the decision produced, or the line. *)
Lemma loop_upto_settled lines j :
  nth_error (fst (loop_upto lines (S j))) j
  = match nth_error lines j with
    | Some line =>
        Some (match decision_at lines j with
              | Some w => w
              | None => line
              end)
    | None => None
    end.
Proof.
  rewrite loop_upto_S. unfold decision_at.
  pose proof (loop_upto_ahead lines j j (le_n j)) as Hj.
  destruct (nth_error lines j) as [line|] eqn:E.
  - rewrite (step_here _ _ _ Hj), Hj. reflexivity.
  - destruct (loop_upto lines j) as [ws b]. simpl in *.
    unfold step. now rewrite Hj.
Qed.

Lemma replacement_window ws1 ws2 i line :
  (forall j, i - 10 <= j -> j < i -> nth_error ws1 j = nth_error ws2 j) ->
  replacement ws1 i line = replacement ws2 i line.
Proof.
  intros H. unfold replacement, needs_wrap.
  now rewrite (slice_ext ws1 ws2 (Nat.max 0 (i - 10)) i H).
Qed.

(** A replacement is always the wrapper of the table text the pattern
    captures on a line that holds the phrase. *)
Lemma replacement_some ws i line w :
  replacement ws i line = Some w ->
  contains PHRASE line = true
  /\ exists m, re_search alter_re line = Some m /\ w = wrapped (group m 1).
Proof.
  unfold replacement, needs_wrap. intros H.
  destruct (contains PHRASE line); [|discriminate]. split; [reflexivity|].
  destruct (_ || _); [|discriminate].
  destruct (re_search alter_re line) as [m|]; [|discriminate].
  injection H as <-. eauto.
Qed.

Lemma step_modified st i :
  snd (step st i) = true ->
  snd st = true
  \/ exists line, nth_error (fst st) i = Some line
                  /\ contains PHRASE line = true.
Proof.
  destruct st as [ws b]. unfold step.
  destruct (nth_error ws i) as [line|] eqn:E; [|now left].
  destruct (replacement ws i line) as [w|] eqn:Rp; [|now left].
  intros _. right. exists line. split; [exact E|].
  now apply replacement_some in Rp.
Qed.

Lemma loop_upto_modified lines n :
  snd (loop_upto lines n) = true ->
  exists j line, nth_error lines j = Some line
                 /\ contains PHRASE line = true.
Proof.
  induction n as [|n IH]; [discriminate|].
  rewrite loop_upto_S. intros H.
  apply step_modified in H as [H|(line & Hl & Hc)]; [now apply IH|].
  rewrite loop_upto_ahead in Hl by lia. eauto.
Qed.

End FixAllFacts.

(** ** fix_all_migrations.py: claims *)

Section FixAllClaims.

Import FixAll.

(** C1 on the code: the in-place script is not idempotent on a file whose
    statements all sit in the canonical wrapper.  With two wrapped blocks
    in a row, the statement of the second one sees the [END $$] of the first
    within its ten lines of context and is wrapped a second time.  A lone
    wrapped block is left alone, and [fix_migrations.py] leaves both
    files alone. *)
Theorem C1_adjacent_wrapped_blocks_rewrapped :
  fix_file two_wrapped = wrapped (lit "t1") ++ nl :: second_rewrapped
  /\ fix_file two_wrapped <> two_wrapped
  /\ fix_file (wrapped (lit "t1")) = wrapped (lit "t1")
  /\ FixOne.fix_file two_wrapped = two_wrapped.
Proof.
  split; [vm_compute; reflexivity|].
  split; [vm_compute; discriminate|].
  split; vm_compute; reflexivity.
Qed.

(** C9, as stated, fails: [file_closing] and [file_plain] agree on lines 1
    to 11, yet the statement on line 11 is wrapped in the first and kept in
    the second.  Line 10 was rewritten in the first file only, and the
    look-back of line 11 reads the rewritten entry. *)
Lemma C9_same_window_different_decision :
  (forall j, 11 - 10 <= j -> j <= 11 ->
             nth_error file_closing j = nth_error file_plain j)
  /\ decision_at file_closing 11 = Some (wrapped (lit "t2"))
  /\ decision_at file_plain 11 = None.
Proof.
  split.
  - intros j H1 H2.
    destruct j as [|j]; [lia|]. reflexivity.
  - split; vm_compute; reflexivity.
Qed.

(** C9, amended: the decision for line [i] is a function of line [i], of
    the ten lines before it, and of the decisions taken for those ten
    lines.  Two files that agree on that window and on the decisions taken
    inside it get the same decision and the same replacement on line
    [i]. *)
Theorem C9_window_and_earlier_decisions :
  forall lines1 lines2 i,
    (forall j, i - 10 <= j -> j <= i ->
               nth_error lines1 j = nth_error lines2 j) ->
    (forall j, i - 10 <= j -> j < i ->
               decision_at lines1 j = decision_at lines2 j) ->
    decision_at lines1 i = decision_at lines2 i.
Proof.
  intros lines1 lines2 i Hw Hd. unfold decision_at at 1 2.
  rewrite !loop_upto_ahead by lia.
  rewrite <- (Hw i) by lia.
  destruct (nth_error lines1 i) as [line|]; [|reflexivity].
  apply replacement_window. intros j H1 H2.
  rewrite !(loop_upto_behind _ i j) by lia.
  rewrite !loop_upto_settled.
  now rewrite Hw, Hd by lia.
Qed.

Lemma C9_window_witness :
  decision_at [lit "DO $$"; stmt_t1] 1
  = decision_at [lit "DO $$"; stmt_t1; stmt_t2] 1.
Proof.
  apply C9_window_and_earlier_decisions.
  - intros j _ H. destruct j as [|[|j]]; [reflexivity | reflexivity | lia].
  - intros j _ H. destruct j as [|j]; [reflexivity | lia].
Defined.

End FixAllClaims.

(** ** The frame of a rewrite *)

Section FrameFacts.

Lemma render_frame content :
  forall fuel pos,
    pos <= length content ->
    exists segs tail,
      skipn pos content = text_before segs tail
      /\ render content (finditer_from fuel alter_re content pos) pos
         = text_after segs tail
      /\ Forall spliced segs.
Proof.
  induction fuel as [|f IH]; intros pos Hpos.
  - exists [], (skipn pos content). now repeat split.
  - cbn [finditer_from].
    destruct (search_at alter_re (skipn pos content) pos) as [m|] eqn:E.
    + destruct (search_at_slices _ _ _ _ Hpos E)
        as (a & w & b & Hs & Ha & Hw & Hb & M & H1 & H2).
      apply matches_alter in M as (t & Hwt & Hne & Hall & Hc).
      destruct (IH _ H2) as (segs & tail & Hin & Hout & Hok).
      exists (mkSegment a w (ConsolidatedV2.part_for content m) :: segs), tail.
      repeat split.
      * unfold text_before in *. cbn [map concat seg_gap seg_stmt].
        rewrite Hs, <- !app_assoc, <- Hin, Hb. reflexivity.
      * unfold text_after in *. cbn [map concat seg_gap seg_repl render].
        rewrite Ha, <- !app_assoc, <- Hout. reflexivity.
      * constructor; [|exact Hok].
        exists t. cbn [seg_stmt seg_repl]. split; [exact Hwt|].
        unfold ConsolidatedV2.part_for, group0. rewrite Hw.
        destruct (ConsolidatedV2.in_do_block content (m_start m));
          [now left | right].
        f_equal. apply group_alter. exact Hc.
    + exists [], (skipn pos content). now repeat split.
Qed.

Import FixAll.

Lemma step_unmodified st i :
  snd (step st i) = false -> fst (step st i) = fst st /\ snd st = false.
Proof.
  destruct st as [ws b]. unfold step.
  destruct (nth_error ws i) as [line|]; [|auto].
  destruct (replacement ws i line); [discriminate | auto].
Qed.

Lemma loop_upto_unmodified lines n :
  snd (loop_upto lines n) = false -> fst (loop_upto lines n) = lines.
Proof.
  induction n as [|n IH]; [reflexivity|].
  rewrite loop_upto_S. intros H.
  apply step_unmodified in H as [-> H]. now apply IH.
Qed.

(** The text written (or left) on disk is the working list, joined. *)
Lemma fix_file_joined content :
  fix_file content = join_nl (fst (loop (split_nl content))).
Proof.
  unfold fix_file, loop.
  pose proof (loop_upto_unmodified (split_nl content)
                (length (split_nl content))) as U.
  destruct (loop_upto (split_nl content) (length (split_nl content)))
    as [ws [|]]; [reflexivity|].
  simpl in *. rewrite U by reflexivity. symmetry. apply join_split.
Qed.

Lemma loop_entry lines i line :
  nth_error lines i = Some line ->
  nth_error (fst (loop lines)) i = Some line
  \/ (contains PHRASE line = true
      /\ exists m, re_search alter_re line = Some m
                   /\ nth_error (fst (loop lines)) i
                      = Some (wrapped (group m 1))).
Proof.
  intros H. unfold loop.
  assert (Hi : i < length lines) by (apply nth_error_Some; congruence).
  rewrite (loop_upto_behind _ _ _ Hi), loop_upto_settled, H.
  destruct (decision_at lines i) as [w|] eqn:D; [right | now left].
  unfold decision_at in D. rewrite loop_upto_ahead, H in D by lia.
  apply replacement_some in D as (Hc & m & Hm & ->). eauto.
Qed.

Lemma no_phrase_unchanged content :
  contains PHRASE content = false -> fix_file content = content.
Proof.
  intros H. unfold fix_file, loop.
  pose proof (loop_upto_modified (split_nl content)
                (length (split_nl content))) as Hm.
  destruct (loop_upto (split_nl content) (length (split_nl content)))
    as [ws [|]]; [|reflexivity].
  destruct (Hm eq_refl) as (j & line & Hj & Hc).
  apply nth_error_In in Hj.
  pose proof (contains_join _ _ _ Hj Hc) as Hcj.
  rewrite join_split in Hcj. congruence.
Qed.

End FrameFacts.

Section FrameClaims.

(** C8, as stated, fails: the in-place script replaces the whole line, so
    the statements that share the line with the occurrence are lost; the
    splice the claim describes would have kept them. *)
Lemma C8_rest_of_line_dropped :
  FixAll.fix_file inline_stmt = wrapped (lit "t1")
  /\ FixAll.fix_file inline_stmt
     <> lit "SELECT 1; " ++ wrapped (lit "t1") ++ lit " SELECT 2;".
Proof. split; [vm_compute; reflexivity | vm_compute; discriminate]. Qed.

(** C8, amended.  [generate_consolidated_v2.py] splices: the file is a
    sequence of gaps and statements, and the output has the same gaps and
    tail, each statement kept or replaced by its wrapper.  The in-place
    script works line by line: the output has as many entries as the input
    has lines, and each entry is the input line or, for a line that holds
    the phrase, the wrapper of the table text found on it (the rest of that
    line is not kept).  A file without the phrase comes out of both
    unchanged. *)
Theorem C8_frame_of_wrap_mode :
  forall content,
    (exists segs tail,
        content = text_before segs tail
        /\ ConsolidatedV2.transform content = text_after segs tail
        /\ Forall spliced segs)
    /\ (let lines := split_nl content in
        let out := fst (FixAll.loop lines) in
        FixAll.fix_file content = join_nl out
        /\ length out = length lines
        /\ forall i line,
             nth_error lines i = Some line ->
             nth_error out i = Some line
             \/ (contains PHRASE line = true
                 /\ exists m, re_search alter_re line = Some m
                              /\ nth_error out i
                                 = Some (wrapped (group m 1))))
    /\ (contains PHRASE content = false ->
        FixAll.fix_file content = content
        /\ ConsolidatedV2.transform content = content).
Proof.
  intros content. split; [|split].
  - destruct (contains PHRASE content) eqn:C.
    + rewrite (transform_render _ C).
      apply (render_frame content (S (length content)) 0). lia.
    + exists [], content. unfold ConsolidatedV2.transform. rewrite C.
      unfold text_before, text_after. simpl. now repeat split.
  - cbv zeta. split; [apply fix_file_joined|].
    split; [apply loop_upto_length|]. apply loop_entry.
  - intros H. split; [now apply no_phrase_unchanged|].
    unfold ConsolidatedV2.transform. now rewrite H.
Qed.

Lemma C8_frame_witness :
  contains PHRASE (lit "SELECT 1;") = false
  /\ FixAll.fix_file (lit "SELECT 1;") = lit "SELECT 1;"
  /\ ConsolidatedV2.transform (lit "SELECT 1;") = lit "SELECT 1;".
Proof.
  split; [reflexivity|].
  apply (C8_frame_of_wrap_mode (lit "SELECT 1;")). reflexivity.
Defined.

End FrameClaims.

(** ** extract_functions.py: the comment filter *)

Section CommentFacts.

Import Extract.

Lemma rfind_scan_none c s i acc :
  forallb (fun a => negb (Ascii.eqb a c)) s = true ->
  rfind_scan c s i acc = acc.
Proof.
  revert i acc; induction s as [|x s IH]; intros i acc H; [reflexivity|].
  simpl in *. apply andb_true_iff in H as [Hx Hs].
  apply negb_true_iff in Hx. rewrite Hx. now apply IH.
Qed.

Lemma rfind_scan_last c a t i acc :
  forallb (fun x => negb (Ascii.eqb x c)) t = true ->
  rfind_scan c (a ++ c :: t) i acc = (i + Z.of_nat (length a))%Z.
Proof.
  intros Ht. revert i acc; induction a as [|x a IH]; intros i acc.
  - simpl. rewrite Ascii.eqb_refl, rfind_scan_none by exact Ht. lia.
  - cbn [app rfind_scan]. rewrite IH. simpl length. lia.
Qed.

(** A text has no newline, or splits at its last one. *)
Lemma last_newline (s : str) :
  forallb not_nl s = true
  \/ exists a t, s = a ++ nl :: t /\ forallb not_nl t = true.
Proof.
  induction s as [|x s [IH|(a & t & -> & Ht)]].
  - now left.
  - destruct (Ascii.eqb x nl) eqn:E.
    + right. apply Ascii.eqb_eq in E. subst x. now exists [], s.
    + left. cbn [forallb]. unfold not_nl at 1. now rewrite E.
  - right. now exists (x :: a), t.
Qed.

(** The line prefix the filter looks at: the text between the last newline
    before the match and the match. *)
Lemma line_prefix_spec content p :
  let line_start := Z.to_nat (rfind_char nl content p + 1) in
  let line_prefix := slice content line_start p in
  (forallb not_nl (firstn p content) = true
   /\ line_prefix = firstn p content)
  \/ (exists a,
        firstn p content = a ++ nl :: line_prefix
        /\ forallb not_nl line_prefix = true).
Proof.
  cbv zeta. unfold rfind_char.
  assert (Hsl : forall n, n <= length (firstn p content) ->
            slice content n p = skipn n (firstn p content)).
  { intros n Hn. unfold slice. rewrite firstn_skipn_comm.
    rewrite length_firstn in Hn.
    destruct (Nat.le_gt_cases p (length content)) as [Hp|Hp].
    - replace (n + (p - n)) with p by lia. reflexivity.
    - rewrite !firstn_all2 by lia. reflexivity. }
  destruct (last_newline (firstn p content)) as [H|(a & t & E & Ht)].
  - left. split; [exact H|].
    rewrite rfind_scan_none by exact H. simpl. apply Hsl. lia.
  - right. exists a. rewrite E, rfind_scan_last by exact Ht.
    replace (Z.to_nat (0 + Z.of_nat (length a) + 1)) with (length a + 1)
      by lia.
    rewrite Hsl by (rewrite E, length_app; simpl; lia).
    rewrite E, skipn_app, skipn_all2 by lia.
    replace (length a + 1 - length a) with 1 by lia. simpl.
    split; [reflexivity | exact Ht].
Qed.

Lemma forallb_app_inv {A} (f : A -> bool) (l1 l2 : list A) :
  forallb f (l1 ++ l2) = true ->
  forallb f l1 = true /\ forallb f l2 = true.
Proof. rewrite forallb_app. apply andb_true_iff. Qed.

(** A newline-free tail of a text lies after the text's newlines. *)
Lemma tail_after_newline (x u a t : str) :
  x ++ u = a ++ nl :: t -> forallb not_nl u = true ->
  exists v, t = v ++ u.
Proof.
  revert a; induction x as [|c x IH]; intros a E Hu.
  - simpl in E. subst u. apply forallb_app_inv in Hu as [_ Hu].
    cbn [forallb] in Hu. unfold not_nl at 1 in Hu.
    now rewrite Ascii.eqb_refl in Hu.
  - destruct a as [|c' a]; simpl in E; injection E as -> E.
    + now exists x.
    + now apply (IH a).
Qed.

(** The filter fires exactly when [--] stands before the match on the
    match's own line. *)
Lemma is_commented_iff content p :
  is_commented content p = true
  <-> exists pre mid,
        firstn p content = pre ++ lit "--" ++ mid
        /\ forallb not_nl mid = true.
Proof.
  unfold is_commented.
  destruct (line_prefix_spec content p) as [[Hno ->]|(a & E & Hno)];
    rewrite contains_iff; split.
  - intros (x & y & E). exists x, y. split; [exact E|].
    rewrite E in Hno. apply forallb_app_inv in Hno as [_ Hno].
    now apply forallb_app_inv in Hno as [_ Hno].
  - intros (pre & mid & E & _). eauto.
  - intros (x & y & E'). rewrite E' in E, Hno.
    exists (a ++ nl :: x), y. split.
    + rewrite E, <- app_assoc. reflexivity.
    + apply forallb_app_inv in Hno as [_ Hno].
      now apply forallb_app_inv in Hno as [_ Hno].
  - intros (pre & mid & E' & Hmid). rewrite E' in E.
    destruct (tail_after_newline pre (lit "--" ++ mid) a _ E) as [v Hv].
    + simpl. exact Hmid.
    + exists v, mid. exact Hv.
Qed.

(** Nothing before the last newline reaches the filter. *)
Lemma is_commented_line_only content p pre line :
  firstn p content = pre ++ nl :: line ->
  contains (lit "--") line = false ->
  is_commented content p = false.
Proof.
  intros E Hline. destruct (is_commented content p) eqn:C; [|reflexivity].
  apply is_commented_iff in C as (x & mid & E' & Hmid).
  rewrite E' in E.
  destruct (tail_after_newline x (lit "--" ++ mid) pre line E) as [v Hv];
    [exact Hmid|].
  assert (contains (lit "--") line = true)
    by (apply contains_iff; now exists v, mid).
  congruence.
Qed.

End CommentFacts.

(** ** extract_functions.py: claims on the filter and on truncation *)

Section ExtractClaims.

Import Extract.

Lemma count_skip_skipn p s k :
  count_skip p s k = count_skip p (skipn k s) 0.
Proof.
  revert k; induction s as [|c s IH]; intros [|k]; try reflexivity.
  simpl. apply IH.
Qed.

(** An occurrence found by [find] is the first one [count] counts. *)
Lemma count_find (p s : str) (i : nat) :
  p <> [] -> find p s = Some i ->
  count p s = S (count p (skipn (i + length p) s)).
Proof.
  intros Hp. unfold count. destruct p as [|a p]; [congruence|]. clear Hp.
  revert i; induction s as [|c s IH]; intros i H.
  - discriminate.
  - cbn [find] in H. cbn [count_skip].
    destruct (starts_with (a :: p) (c :: s)).
    + injection H as <-. rewrite count_skip_skipn.
      simpl. now rewrite Nat.sub_0_r.
    + destruct (find (a :: p) s) as [j|]; [|discriminate].
      injection H as <-. now rewrite (IH j).
Qed.

Lemma count_two_markers (s : str) (i j : nat) :
  find (lit "$$") s = Some i ->
  find (lit "$$") (skipn (i + 2) s) = Some j ->
  2 <= count (lit "$$") s.
Proof.
  intros Hi Hj.
  assert (Hp : lit "$$" <> []) by (vm_compute; discriminate).
  pose proof (count_find _ _ _ Hp Hi) as C1.
  pose proof (count_find _ _ _ Hp Hj) as C2.
  change (length (lit "$$")) with 2 in C1. rewrite C1, C2. lia.
Qed.

(** C6, as stated, fails: the function whose body never closes is found by
    the pattern and passes the comment filter, and the run prints and
    writes exactly what it does for an empty file; nothing reports it. *)
Lemma C6_truncated_function_silent :
  function_starts truncated_fn = [0]
  /\ is_commented truncated_fn 0 = false
  /\ run [(lit "a.sql", truncated_fn)] = run [(lit "a.sql", [])].
Proof. repeat split; vm_compute; reflexivity. Qed.

(** C6, amended: a function occurrence with fewer than two [$$] markers
    after its start, or with no [;] after its closing marker, yields no
    fragment; what the run prints does not depend on the text of the
    files, so nothing is reported for it. *)
Theorem C6_truncated_function_excluded :
  forall filename content start,
    (count (lit "$$") (skipn start content) < 2
     \/ exists i j,
          find (lit "$$") (skipn start content) = Some i
          /\ find (lit "$$") (skipn (start + i + 2) content) = Some j
          /\ contains (lit ";") (skipn (start + i + 2 + (j + 2)) content)
             = false) ->
    function_step filename content start = []
    /\ forall corpus,
         fst (run corpus)
         = fst (run (map (fun fc => (fst fc, [])) corpus)).
Proof.
  intros filename content start H. split.
  - unfold function_step, function_fragment.
    destruct (is_commented content start); [reflexivity|].
    destruct (find (lit "$$") (skipn start content)) as [i|] eqn:Fi;
      [|reflexivity].
    destruct (find (lit "$$") (skipn (start + i + 2) content))
      as [j|] eqn:Fj; [|reflexivity].
    destruct H as [H|(i' & j' & Hi & Hj & Hs)].
    + assert (Fj' : find (lit "$$") (skipn (i + 2) (skipn start content))
                    = Some j).
      { rewrite skipn_skipn. rewrite <- Fj. do 2 f_equal. lia. }
      pose proof (count_two_markers _ _ _ Fi Fj'). lia.
    + injection Hi as <-. rewrite Fj in Hj. injection Hj as <-.
      unfold contains in Hs.
      destruct (find (lit ";") (skipn (start + i + 2 + (j + 2)) content));
        [discriminate | reflexivity].
  - intros corpus. unfold run. simpl. now rewrite length_map.
Qed.

Lemma C6_truncated_function_witness :
  function_step (lit "a.sql") truncated_fn 0 = []
  /\ forall corpus,
       fst (run corpus) = fst (run (map (fun fc => (fst fc, [])) corpus)).
Proof.
  apply (C6_truncated_function_excluded (lit "a.sql") truncated_fn 0).
  left. vm_compute. lia.
Defined.

(** C10: a function or trigger match is dropped by the filter exactly when
    [--] occurs between the start of its line and the match, whether or not
    that [--] opens a comment.  A match with a complete body is extracted
    exactly when the filter does not fire, and text on earlier lines (a
    [--] there, or a block comment) never makes it fire. *)
Theorem C10_suppressed_by_dashes_on_same_line :
  forall filename content p,
    let dashes_before :=
      exists pre mid,
        firstn p content = pre ++ lit "--" ++ mid
        /\ forallb not_nl mid = true in
    (is_commented content p = true <-> dashes_before)
    /\ (forall m, m_start m = p ->
          (trigger_step filename content m = [] <-> dashes_before))
    /\ (function_step filename content p = []
        <-> dashes_before \/ function_fragment filename content p = None)
    /\ (forall pre line,
          firstn p content = pre ++ nl :: line ->
          contains (lit "--") line = false ->
          is_commented content p = false).
Proof.
  intros filename content p dashes_before.
  pose proof (is_commented_iff content p) as Hiff.
  fold dashes_before in Hiff.
  split; [exact Hiff|]. split; [|split].
  - intros m <-. unfold trigger_step. rewrite <- Hiff.
    destruct (is_commented content (m_start m)); split; auto; discriminate.
  - unfold function_step. rewrite <- Hiff.
    destruct (is_commented content p).
    + split; auto.
    + destruct (function_fragment filename content p); split; auto.
      * discriminate.
      * intros [H|H]; discriminate.
  - apply is_commented_line_only.
Qed.

End ExtractClaims.

(** ** extract_functions.py: what a fragment holds *)

Section FragmentFacts.

Import Extract.

Lemma matches_spaces w c c' :
  matches spaces w c c' -> blanks w /\ c' = c.
Proof.
  intros H. apply matches_plus in H as (H1 & H2 & H3). now repeat split.
Qed.

Lemma matches_trigger w c' :
  matches trigger_re w no_caps c' ->
  exists name table,
    c' 1 = Some name /\ c' 2 = Some table /\ trigger_shape w name table.
Proof.
  intros H.
  apply matches_seq in H as (k1 & w1 & c1 & -> & Hk1 & H).
  apply matches_lit_ci in Hk1 as [Hk1 ->].
  apply matches_seq in H as (s1 & w2 & c2 & -> & Hs1 & H).
  apply matches_spaces in Hs1 as [Hs1 ->].
  apply matches_seq in H as (k2 & w3 & c3 & -> & Hk2 & H).
  apply matches_lit_ci in Hk2 as [Hk2 ->].
  apply matches_seq in H as (s2 & w4 & c4 & -> & Hs2 & H).
  apply matches_spaces in Hs2 as [Hs2 ->].
  apply matches_seq in H as (name & w5 & c5 & -> & Hn & H).
  apply matches_cap in Hn as (c5' & Hn & ->).
  apply matches_plus in Hn as (Hn1 & Hn2 & ->).
  apply matches_seq in H as (s3 & w6 & c6 & -> & Hs3 & H).
  apply matches_spaces in Hs3 as [Hs3 ->].
  apply matches_seq in H as (any1 & w7 & c7 & -> & Ha1 & H).
  apply matches_star in Ha1 as [_ ->].
  apply matches_seq in H as (s4 & w8 & c8 & -> & Hs4 & H).
  apply matches_spaces in Hs4 as [Hs4 ->].
  apply matches_seq in H as (k3 & w9 & c9 & -> & Hk3 & H).
  apply matches_lit_ci in Hk3 as [Hk3 ->].
  apply matches_seq in H as (s5 & w10 & c10 & -> & Hs5 & H).
  apply matches_spaces in Hs5 as [Hs5 ->].
  apply matches_seq in H as (table & w11 & c11 & -> & Ht & H).
  apply matches_cap in Ht as (c11' & Ht & ->).
  apply matches_plus in Ht as (Ht1 & Ht2 & ->).
  apply matches_seq in H as (s6 & w12 & c12 & -> & Hs6 & H).
  apply matches_spaces in Hs6 as [Hs6 ->].
  apply matches_seq in H as (any2 & w13 & c13 & -> & Ha2 & H).
  apply matches_star in Ha2 as [_ ->].
  apply matches_chr in H as (x & -> & Hx & ->).
  apply Ascii.eqb_eq in Hx. subst x.
  exists name, table. repeat split; try reflexivity.
  exists k1, s1, k2, s2, s3, any1, s4, k3, s5, s6, any2.
  repeat split; auto; apply Hs1 || apply Hs2 || apply Hs3 || apply Hs4
    || apply Hs5 || apply Hs6.
Qed.

Lemma trigger_nonempty : nonempty trigger_re.
Proof.
  intros w c c' H E. subst w.
  apply matches_seq in H as (k1 & w1 & c1 & E & Hk1 & _).
  apply matches_lit_ci in Hk1 as [Hk1 _].
  destruct k1; [discriminate Hk1 | discriminate E].
Qed.

Lemma function_nonempty : nonempty function_re.
Proof.
  intros w c c' H E. subst w.
  apply matches_seq in H as (k1 & w1 & c1 & E & Hk1 & _).
  apply matches_lit_ci in Hk1 as [Hk1 _].
  destruct k1; [discriminate Hk1 | discriminate E].
Qed.

(** The rounds given to [finditer] suffice for the three patterns: more
    rounds find nothing more. *)
Lemma finditer_complete r content extra :
  nonempty r ->
  finditer_from (S (length content) + extra) r content 0
  = finditer r content.
Proof.
  intros Hne. unfold finditer. induction extra as [|k IH].
  - now rewrite Nat.add_0_r.
  - rewrite <- IH. replace (S (length content) + S k)
      with (S (S (length content) + k)) by lia.
    apply finditer_from_enough; [exact Hne | lia].
Qed.

Lemma is_commented_off content p pre line :
  firstn p content = pre ++ line ->
  pre = [] \/ (exists pre', pre = pre' ++ [nl]) ->
  contains (lit "--") line = false ->
  is_commented content p = false.
Proof.
  intros E [->|(pre' & ->)] Hline.
  - destruct (is_commented content p) eqn:C; [|reflexivity].
    apply is_commented_iff in C as (x & mid & E' & _).
    rewrite E' in E. simpl in E.
    assert (contains (lit "--") line = true)
      by (apply contains_iff; now exists x, mid).
    congruence.
  - rewrite <- app_assoc in E. now apply (is_commented_line_only _ _ _ _ E).
Qed.

Lemma split_nl_single (s : str) :
  forallb not_nl s = true -> split_nl s = [s].
Proof.
  induction s as [|c s IH]; intros H; [reflexivity|].
  cbn [forallb] in H. apply andb_true_iff in H as [Hc Hs].
  unfold not_nl in Hc. apply negb_true_iff in Hc.
  cbn [split_nl]. now rewrite Hc, (IH Hs).
Qed.

End FragmentFacts.

(** ** extract_functions.py: claims on fragments and comments *)

Section FragmentClaims.

Import Extract.

(** C7, as stated, fails: the fragment of an extracted function is the
    header line and the statement; no drop statement precedes it. *)
Lemma C7_function_fragment_has_no_guard :
  file_fragments (lit "a.sql") complete_fn
  = [lit "-- From a.sql" ++ nl :: complete_fn ++ [nl]]
  /\ forall frag,
       In frag (file_fragments (lit "a.sql") complete_fn) ->
       contains (lit "DROP") frag = false.
Proof.
  split; [vm_compute; reflexivity|].
  intros frag H. vm_compute in H. destruct H as [<-|[]].
  vm_compute. reflexivity.
Qed.

(** C4, as stated, fails, in both halves.  A publication statement that
    was commented out is wrapped like a bare one by each of the four wrap
    scripts; the extractor's own test says the match starts in a comment.
    And a trigger statement outside any comment yields no fragment when a
    commented-out one stands above it: the match that starts in the comment
    runs on to the [;] of the statement below, and is dropped as a whole. *)
Lemma C4_commented_statement_wrapped :
  (is_commented commented_stmt 3 = true
   /\ FixAll.fix_file commented_stmt = wrapped (lit "t1")
   /\ FixOne.fix_file commented_stmt = wrapped (lit "t1")
   /\ Consolidated.transform commented_stmt = wrapped (lit "t1")
   /\ ConsolidatedV2.transform commented_stmt
      = lit "-- " ++ wrapped (lit "t1"))
  /\ (is_commented trigger_after_comment 47 = false
      /\ skipn 47 trigger_after_comment = sample_trigger
      /\ file_fragments (lit "a.sql") sample_trigger
         = [header (lit "a.sql")
              ++ drop_stmt (lit "trg") (lit "public.t") ++ [nl]
              ++ sample_trigger ++ [nl]]
      /\ file_fragments (lit "a.sql") trigger_after_comment = []).
Proof. repeat split; vm_compute; reflexivity. Qed.

End FragmentClaims.

(** ** fix_migrations.py keeps wrapped files *)

Section FixOneFacts.

Import FixOne.

Lemma join_wrapper_lines t : join_nl (wrapper_lines t) = wrapped t.
Proof.
  unfold wrapper_lines, wrapped. cbn [join_nl].
  now rewrite <- !app_assoc.
Qed.

Lemma nth_error_slice {A} (l : list A) a b k :
  k < b - a -> nth_error (slice l a b) k = nth_error l (a + k).
Proof.
  intros H. unfold slice. rewrite nth_error_firstn, nth_error_skipn.
  apply Nat.ltb_lt in H. now rewrite H.
Qed.

Lemma emit_wrapped lines i line :
  all_wrapped lines -> nth_error lines i = Some line ->
  emit lines i line = line.
Proof.
  intros W H. unfold emit.
  destruct (contains PHRASE line) eqn:C; [|reflexivity].
  destruct (W _ _ H C) as (t & Hi & Hs).
  assert (Hdo : nth_error lines (i - 3) = Some (lit "DO $$")).
  { pose proof (nth_error_slice lines (i - 3) (i + 5) 0 ltac:(lia)) as E.
    rewrite Hs, Nat.add_0_r in E. symmetry. exact E. }
  assert (Hin : In (lit "DO $$") (slice lines (Nat.max 0 (i - 5)) i)).
  { apply (nth_error_In _ ((i - 3) - (i - 5))).
    rewrite nth_error_slice by (simpl; lia).
    rewrite <- Hdo. f_equal. simpl. lia. }
  rewrite (contains_join (lit "DO $$") _ _ Hin eq_refl). reflexivity.
Qed.

Lemma loop_from_id lines :
  all_wrapped lines ->
  forall todo i,
    (forall k line, nth_error todo k = Some line ->
                    nth_error lines (i + k) = Some line) ->
    loop_from lines i todo = todo.
Proof.
  intros W. induction todo as [|line todo IH]; intros i H; [reflexivity|].
  cbn [loop_from]. f_equal.
  - apply emit_wrapped; [exact W|].
    rewrite <- (Nat.add_0_r i). now apply H.
  - apply IH. intros k l Hk.
    replace (S i + k) with (i + S k) by lia. now apply H.
Qed.

(** The sibling script is idempotent on wrapped files: a file whose
    statements all sit in the canonical wrapper is returned as it is. *)
Lemma fix_migrations_keeps_wrapped content :
  all_wrapped (split_nl content) -> fix_file content = content.
Proof.
  intros W. unfold fix_file.
  rewrite (loop_from_id _ W) by (intros k l H; exact H).
  apply join_split.
Qed.

Lemma two_wrapped_all_wrapped : all_wrapped (split_nl two_wrapped).
Proof.
  intros i line H C.
  do 16 (destruct i as [|i];
         [vm_compute in H; injection H as <-;
          first [ vm_compute in C; discriminate C
                | exists (lit "t1"); split; [lia | vm_compute; reflexivity]
                | exists (lit "t2"); split; [lia | vm_compute; reflexivity]
                ]|]).
  vm_compute in H. destruct i; discriminate H.
Qed.

End FixOneFacts.

(** ** Further properties: text of the wrapper, joined lines *)

Section WrapperFacts.

Lemma wrapped_parts t : wrapped t = wrap_head ++ statement t ++ wrap_tail.
Proof.
  unfold wrapped, wrap_head, statement, wrap_tail.
  rewrite <- !app_assoc. reflexivity.
Qed.

Lemma split_nl_app_nl (l rest : str) :
  forallb not_nl l = true -> split_nl (l ++ nl :: rest) = l :: split_nl rest.
Proof.
  induction l as [|c l IH]; intros H.
  - cbn [app split_nl]. now rewrite Ascii.eqb_refl.
  - cbn [forallb] in H. apply andb_true_iff in H as [Hc Hl].
    unfold not_nl in Hc. apply negb_true_iff in Hc.
    cbn [app split_nl]. now rewrite Hc, (IH Hl).
Qed.

(** The wrapper of a one-line table text is eight lines long. *)
Lemma split_wrapped t :
  forallb not_nl t = true -> split_nl (wrapped t) = wrapper_lines t.
Proof.
  intros Ht. rewrite <- join_wrapper_lines. unfold wrapper_lines.
  cbn [join_nl].
  repeat (rewrite split_nl_app_nl;
          [f_equal | first [ reflexivity
                           | rewrite !forallb_app, Ht; reflexivity ]]).
  all: try reflexivity.
Qed.

Lemma prefix_before_newline (p b l rest : str) :
  forallb not_nl p = true ->
  p ++ b = l ++ nl :: rest -> exists b', l = p ++ b'.
Proof.
  revert l; induction p as [|x p IH]; intros l Hp E.
  - now exists l.
  - cbn [forallb] in Hp. apply andb_true_iff in Hp as [Hx Hp].
    destruct l as [|c l]; simpl in E; injection E as -> E.
    + unfold not_nl in Hx. now rewrite Ascii.eqb_refl in Hx.
    + destruct (IH _ Hp E) as [b' ->]. now exists b'.
Qed.

Lemma occurrence_in_line_or_rest (p a b l rest : str) :
  p <> [] -> forallb not_nl p = true ->
  l ++ nl :: rest = a ++ p ++ b ->
  (exists b', l = a ++ p ++ b') \/ (exists a', rest = a' ++ p ++ b).
Proof.
  intros Hne Hp. revert a; induction l as [|c l IH]; intros a E.
  - destruct a as [|y a]; simpl in E.
    + destruct p as [|x p]; [congruence|]. simpl in E. injection E as <- _.
      cbn [forallb] in Hp. unfold not_nl at 1 in Hp.
      now rewrite Ascii.eqb_refl in Hp.
    + injection E as <- E. right. now exists a.
  - destruct a as [|y a]; simpl in E.
    + left. symmetry in E.
      destruct (prefix_before_newline p b (c :: l) rest Hp E) as [b' ->].
      now exists b'.
    + injection E as <- E. destruct (IH _ E) as [[b' ->]|[a' ->]].
      * left. now exists b'.
      * right. now exists a'.
Qed.

(** A text without newline that occurs in joined lines occurs in one of
    them. *)
Lemma contains_join_inv (p : str) (ls : list str) :
  p <> [] -> forallb not_nl p = true ->
  contains p (join_nl ls) = true ->
  exists l, In l ls /\ contains p l = true.
Proof.
  intros Hne Hp. induction ls as [|l ls IH]; intros H.
  - destruct p; [congruence | discriminate H].
  - destruct ls as [|l' ls].
    + exists l. split; [now left | exact H].
    + rewrite join_nl_cons in H by discriminate.
      apply contains_iff in H as (a & b & E).
      destruct (occurrence_in_line_or_rest _ _ _ _ _ Hne Hp E)
        as [[b' ->]|[a' E']].
      * exists (a ++ p ++ b'). split; [now left|].
        apply contains_iff. eauto.
      * destruct IH as (x & Hin & Hx).
        { apply contains_iff. eauto. }
        exists x. split; [now right | exact Hx].
Qed.

Lemma in_slice {A} (l : list A) (a b : nat) (x : A) :
  In x (slice l a b) ->
  exists j, a <= j /\ j < b /\ nth_error l j = Some x.
Proof.
  intros H. apply In_nth_error in H as [k Hk].
  unfold slice in Hk. rewrite nth_error_firstn, nth_error_skipn in Hk.
  destruct (k <? b - a) eqn:E; [|discriminate].
  apply Nat.ltb_lt in E. exists (a + k). repeat split; auto; lia.
Qed.

Lemma slice_in {A} (l : list A) (a b j : nat) (x : A) :
  a <= j -> j < b -> nth_error l j = Some x -> In x (slice l a b).
Proof.
  intros Ha Hb H. apply (nth_error_In _ (j - a)).
  rewrite nth_error_slice by lia. rewrite <- H. f_equal. lia.
Qed.

Lemma wrapped_has_end t : contains (lit "END $$") (wrapped t) = true.
Proof.
  apply contains_iff.
  exists (wrap_head ++ statement t
            ++ firstn (length wrap_tail - 7) wrap_tail), (lit ";").
  rewrite wrapped_parts, <- !app_assoc. do 2 f_equal.
Qed.

Lemma statement_has_phrase pre t rest :
  contains PHRASE (pre ++ statement t ++ rest) = true.
Proof.
  apply contains_iff. exists pre, (lit " " ++ t ++ lit ";" ++ rest).
  unfold statement. now rewrite <- !app_assoc.
Qed.

End WrapperFacts.

(** ** fix_all_migrations.py: when a statement is wrapped, when it is kept *)

Section FixAllMore.

Import FixAll.

Lemma loop_upto_idle lines :
  (forall i line, nth_error lines i = Some line ->
                  replacement lines i line = None) ->
  forall n, loop_upto lines n = (lines, false).
Proof.
  intros H. induction n as [|n IH]; [reflexivity|].
  rewrite loop_upto_S, IH. unfold step.
  destruct (nth_error lines n) as [line|] eqn:E; [|reflexivity].
  now rewrite (H _ _ E).
Qed.

Lemma context_has ws i j l p :
  i - 10 <= j -> j < i -> nth_error ws j = Some l ->
  contains p l = true ->
  contains p (join_nl (slice ws (Nat.max 0 (i - 10)) i)) = true.
Proof.
  intros H1 H2 Hj Hp. apply (contains_join _ l); [|exact Hp].
  apply (slice_in _ _ _ j); simpl; auto.
Qed.

Lemma context_lacks ws i p :
  p <> [] -> forallb not_nl p = true ->
  (forall j l, i - 10 <= j -> j < i -> nth_error ws j = Some l ->
               contains p l = false) ->
  contains p (join_nl (slice ws (Nat.max 0 (i - 10)) i)) = false.
Proof.
  intros Hne Hp H.
  destruct (contains p (join_nl (slice ws (Nat.max 0 (i - 10)) i))) eqn:C;
    [|reflexivity].
  apply contains_join_inv in C as (l & Hin & Hl); auto.
  apply in_slice in Hin as (j & H1 & H2 & Hj). simpl in H1.
  rewrite (H _ _ H1 H2 Hj) in Hl. discriminate.
Qed.

(** X1. The in-place script leaves a file alone when every statement sits
    in the canonical wrapper and no [END $$] stands in the ten lines before
    a statement. *)
Theorem fix_all_keeps_isolated_wrappers :
  forall content,
    all_wrapped (split_nl content) ->
    no_end_before (split_nl content) ->
    fix_file content = content.
Proof.
  intros content W N. unfold fix_file, loop.
  rewrite loop_upto_idle; [reflexivity|].
  intros i line H. unfold replacement, needs_wrap.
  destruct (contains PHRASE line) eqn:C; [|reflexivity].
  destruct (W _ _ H C) as (t & Hi & Hs).
  assert (Hdo : nth_error (split_nl content) (i - 3) = Some (lit "DO $$")).
  { pose proof (nth_error_slice (split_nl content) (i - 3) (i + 5) 0
                  ltac:(lia)) as E.
    rewrite Hs, Nat.add_0_r in E. symmetry. exact E. }
  rewrite (context_has _ i (i - 3) (lit "DO $$") (lit "DO $$"));
    [|lia|lia|exact Hdo|reflexivity].
  rewrite context_lacks; [reflexivity|discriminate|reflexivity|].
  intros j l H1 H2 Hj. exact (N _ _ _ _ H C H1 H2 Hj).
Qed.

Lemma fix_all_keeps_isolated_wrappers_witness :
  fix_file (wrapped (lit "t1")) = wrapped (lit "t1").
Proof.
  apply fix_all_keeps_isolated_wrappers.
  - intros i line H C.
    do 8 (destruct i as [|i];
          [vm_compute in H; injection H as <-;
           first [ vm_compute in C; discriminate C
                 | exists (lit "t1"); split;
                   [lia | vm_compute; reflexivity] ]|]).
    vm_compute in H. destruct i; discriminate H.
  - intros i line j l H C H1 H2 Hj.
    do 8 (destruct i as [|i];
          [vm_compute in H; injection H as <-;
           first [ vm_compute in C; discriminate C
                 | do 3 (destruct j as [|j];
                         [vm_compute in Hj; injection Hj as <-;
                          reflexivity|]); lia ]|]).
    vm_compute in H. destruct i; discriminate H.
Defined.

Lemma working_entry lines i j w :
  j < i -> decision_at lines j = Some w ->
  nth_error (fst (loop_upto lines i)) j = Some w.
Proof.
  intros Hj D. rewrite (loop_upto_behind _ _ _ Hj), loop_upto_settled.
  destruct (nth_error lines j) eqn:E; [now rewrite D|].
  unfold decision_at in D. rewrite loop_upto_ahead, E in D by lia.
  discriminate.
Qed.

Lemma decision_some_wrapped lines j w :
  decision_at lines j = Some w -> exists t, w = wrapped t.
Proof.
  unfold decision_at. intros D.
  destruct (nth_error (fst (loop_upto lines j)) j); [|discriminate].
  apply replacement_some in D as (_ & m & _ & ->). eauto.
Qed.

Lemma decision_when_needed lines i line m :
  nth_error lines i = Some line ->
  contains PHRASE line = true ->
  re_search alter_re line = Some m ->
  (negb (contains (lit "DO $$")
           (join_nl (slice (fst (loop_upto lines i)) (Nat.max 0 (i - 10)) i)))
   || contains (lit "END $$")
        (join_nl (slice (fst (loop_upto lines i)) (Nat.max 0 (i - 10)) i)))
  = true ->
  decision_at lines i = Some (wrapped (group m 1)).
Proof.
  intros H C M Hctx. unfold decision_at.
  rewrite loop_upto_ahead, H by lia.
  unfold replacement, needs_wrap. now rewrite C, Hctx, M.
Qed.

(** X2. Once a line has been rewritten, every statement in the ten lines
    after it is wrapped as well, whatever stands before it: the look-back
    finds the [END $$] of the wrapper just written. *)
Theorem fix_all_wraps_after_a_rewrite :
  forall lines i j line m,
    j < i -> i <= j + 10 ->
    decision_at lines j <> None ->
    nth_error lines i = Some line ->
    contains PHRASE line = true ->
    re_search alter_re line = Some m ->
    decision_at lines i = Some (wrapped (group m 1)).
Proof.
  intros lines i j line m H1 H2 D H C M.
  destruct (decision_at lines j) as [w|] eqn:Dj; [|congruence].
  destruct (decision_some_wrapped _ _ _ Dj) as [t ->].
  apply (decision_when_needed _ _ _ _ H C M).
  rewrite (context_has _ i j (wrapped t) (lit "END $$"));
    [apply orb_true_r | lia | lia | | apply wrapped_has_end].
  now apply working_entry.
Qed.

Lemma fix_all_wraps_after_a_rewrite_witness :
  decision_at [stmt_t1; lit "DO $$"; stmt_t2] 2
  = Some (wrapped (lit "t2")).
Proof.
  apply (fix_all_wraps_after_a_rewrite
           [stmt_t1; lit "DO $$"; stmt_t2] 2 0 stmt_t2
           (mkMatch 0 49 (set_cap 1 (lit "t2") no_caps)));
    try reflexivity; try lia.
  vm_compute. discriminate.
Defined.

(** X3. A statement the pattern matches is wrapped whenever none of the
    ten input lines before it contains [DO $$]. *)
Theorem fix_all_wraps_without_block_before :
  forall lines i line m,
    nth_error lines i = Some line ->
    contains PHRASE line = true ->
    re_search alter_re line = Some m ->
    no_do_before lines i ->
    decision_at lines i = Some (wrapped (group m 1)).
Proof.
  intros lines i line m H C M N.
  apply (decision_when_needed _ _ _ _ H C M).
  set (ws := fst (loop_upto lines i)).
  destruct (contains (lit "DO $$")
              (join_nl (slice ws (Nat.max 0 (i - 10)) i))) eqn:Cdo;
    [|reflexivity].
  apply contains_join_inv in Cdo as (l & Hin & Hl);
    [|discriminate|reflexivity].
  apply in_slice in Hin as (j & Hj1 & Hj2 & Hj). simpl in Hj1.
  unfold ws in Hj.
  rewrite (loop_upto_behind _ _ _ Hj2), loop_upto_settled in Hj.
  destruct (nth_error lines j) as [lj|] eqn:Ej; [|discriminate].
  destruct (decision_at lines j) as [w|] eqn:Dj.
  - injection Hj as <-.
    destruct (decision_some_wrapped _ _ _ Dj) as [t ->].
    rewrite (context_has _ i j (wrapped t) (lit "END $$"));
      [reflexivity | lia | lia | | apply wrapped_has_end].
    now apply working_entry.
  - injection Hj as <-. rewrite (N _ _ Hj1 Hj2 Ej) in Hl. discriminate.
Qed.

Lemma fix_all_wraps_without_block_before_witness :
  decision_at [lit "SELECT 1;"; stmt_t1] 1 = Some (wrapped (lit "t1")).
Proof.
  apply (fix_all_wraps_without_block_before
           [lit "SELECT 1;"; stmt_t1] 1 stmt_t1
           (mkMatch 0 49 (set_cap 1 (lit "t1") no_caps)));
    try reflexivity.
  intros j l H1 H2 Hj. destruct j as [|j]; [|lia].
  injection Hj as <-. reflexivity.
Defined.

End FixAllMore.

(** ** The line-based siblings: wrapped files and single statements *)

Section LineScripts.

(** X14. [fix_migrations.py] is idempotent on wrapped files: a file whose
    statements all sit in the canonical wrapper, adjacent blocks included,
    is returned as it is. *)
Theorem fix_migrations_idempotent_on_wrapped :
  forall content,
    all_wrapped (split_nl content) -> FixOne.fix_file content = content.
Proof.
  intros content W. unfold FixOne.fix_file.
  rewrite (loop_from_id _ W) by (intros k l H; exact H).
  apply join_split.
Qed.

Lemma fix_migrations_idempotent_on_wrapped_witness :
  FixOne.fix_file two_wrapped = two_wrapped.
Proof.
  apply fix_migrations_idempotent_on_wrapped.
  apply two_wrapped_all_wrapped.
Defined.

Lemma wrapper_line lines i t k :
  3 <= i -> slice lines (i - 3) (i + 5) = wrapper_lines t -> k < 8 ->
  nth_error lines (i - 3 + k) = nth_error (wrapper_lines t) k.
Proof.
  intros Hi Hs Hk. rewrite <- Hs. symmetry. apply nth_error_slice. lia.
Qed.

Lemma consolidated_handled lines i line :
  all_wrapped lines -> nth_error lines i = Some line ->
  contains PHRASE line = true ->
  Consolidated.handled lines i = true.
Proof.
  intros W H C. destruct (W _ _ H C) as (t & Hi & Hs).
  pose proof (wrapper_line _ _ _ 1 Hi Hs ltac:(lia)) as Hb.
  pose proof (wrapper_line _ _ _ 4 Hi Hs ltac:(lia)) as He.
  cbn [wrapper_lines nth_error] in Hb, He.
  assert (Hlen : i + 1 < length lines)
    by (apply nth_error_Some; replace (i + 1) with (i - 3 + 4) by lia;
        congruence).
  unfold Consolidated.handled.
  rewrite (contains_join (lit "BEGIN") (lit "BEGIN"));
    [|apply (slice_in _ _ _ (i - 3 + 1)); simpl; auto; lia | reflexivity].
  rewrite (contains_join (lit "EXCEPTION")
             (lit "  EXCEPTION WHEN duplicate_object THEN")
             (slice lines i (Nat.min (length lines) (i + 5))));
    [apply orb_true_r | | reflexivity].
  apply (slice_in _ _ _ (i - 3 + 4)); auto; lia.
Qed.

Lemma consolidated_loop_id lines :
  all_wrapped lines ->
  forall todo i,
    (forall k line, nth_error todo k = Some line ->
                    nth_error lines (i + k) = Some line) ->
    Consolidated.loop_from lines i todo = todo.
Proof.
  intros W. induction todo as [|line todo IH]; intros i H; [reflexivity|].
  cbn [Consolidated.loop_from]. f_equal.
  - unfold Consolidated.emit.
    destruct (contains PHRASE line) eqn:C; [|reflexivity].
    rewrite (consolidated_handled lines i line W); auto.
    rewrite <- (Nat.add_0_r i). now apply H.
  - apply IH. intros k l Hk.
    replace (S i + k) with (i + S k) by lia. now apply H.
Qed.

(** X4. [generate_consolidated.py] returns a file unchanged when all its
    statements sit in the canonical wrapper, adjacent blocks included: the
    line above the statement holds [BEGIN] and the line below it
    [EXCEPTION]. *)
Theorem consolidated_keeps_wrapped :
  forall content,
    all_wrapped (split_nl content) ->
    Consolidated.transform content = content.
Proof.
  intros content W. unfold Consolidated.transform.
  destruct (contains PHRASE content); [|reflexivity].
  rewrite (consolidated_loop_id _ W) by (intros k l H; exact H).
  apply join_split.
Qed.

Lemma consolidated_keeps_wrapped_witness :
  Consolidated.transform two_wrapped = two_wrapped.
Proof.
  apply consolidated_keeps_wrapped. apply two_wrapped_all_wrapped.
Defined.

Lemma alter_search_none (s : str) (pos : nat) :
  forallb not_A s = true -> search_at alter_re s pos = None.
Proof.
  revert pos; induction s as [|x s IH]; intros pos H.
  - reflexivity.
  - cbn [forallb] in H. apply andb_true_iff in H as [Hx Hs].
    cbn [search_at]. rewrite (alter_no_match_here _ _ Hx). now apply IH.
Qed.

Lemma statement_unfold pre t rest :
  pre ++ statement t ++ rest
  = pre ++ PHRASE ++ lit " " ++ t ++ lit ";" ++ rest.
Proof. unfold statement. now rewrite <- !app_assoc. Qed.

Lemma single_line_search pre t rest pos :
  forallb not_A pre = true -> t <> [] ->
  forallb not_semicolon t = true ->
  exists m, search_at alter_re (pre ++ statement t ++ rest) pos = Some m
            /\ m_start m = pos + length pre
            /\ m_end m = pos + length pre + length (statement t)
            /\ group m 1 = t.
Proof.
  intros Hpre Hne Ht. rewrite statement_unfold.
  destruct (alter_search pre t rest pos Hpre Hne Ht) as (m & Hm & Hs & Hg).
  exists m. repeat split; auto.
  destruct (search_at_sound _ _ _ _ Hm) as (a & w & b & E & M & Hst & Hen).
  apply matches_alter in M as (t' & -> & _ & Ht' & Hc).
  assert (t' = t) by (rewrite <- Hg; symmetry; now apply group_alter).
  subst t'. rewrite Hen, <- Hst, Hs. reflexivity.
Qed.

(** X5. A file that is one line holding one statement, possibly with other
    text around it on the line, comes out of both look-back scripts as the
    wrapper of that statement and nothing else: the text around the
    statement is dropped. *)
Theorem line_scripts_wrap_single_statement :
  forall pre t rest,
    forallb not_A pre = true ->
    t <> [] -> forallb not_semicolon t = true ->
    forallb not_nl (pre ++ statement t ++ rest) = true ->
    FixAll.fix_file (pre ++ statement t ++ rest) = wrapped t
    /\ FixOne.fix_file (pre ++ statement t ++ rest) = wrapped t.
Proof.
  intros pre t rest Hpre Hne Ht Hnl.
  set (s := pre ++ statement t ++ rest) in *.
  assert (Hc : contains PHRASE s = true) by apply statement_has_phrase.
  destruct (single_line_search pre t rest 0 Hpre Hne Ht)
    as (m & Hm & _ & _ & Hg).
  fold s in Hm. fold (re_search alter_re s) in Hm. split.
  - unfold FixAll.fix_file, FixAll.loop. rewrite (split_nl_single _ Hnl).
    change (FixAll.loop_upto [s] (length [s]))
      with (FixAll.step ([s], false) 0).
    unfold FixAll.step. cbn [nth_error].
    unfold FixAll.replacement, FixAll.needs_wrap. rewrite Hc.
    change (slice [s] (Nat.max 0 (0 - 10)) 0) with (@nil str).
    change (contains (lit "DO $$") (join_nl [])) with false.
    cbn [negb orb andb]. now rewrite Hm, Hg.
  - unfold FixOne.fix_file. rewrite (split_nl_single _ Hnl).
    cbn [FixOne.loop_from join_nl]. unfold FixOne.emit. rewrite Hc.
    change (slice [s] (Nat.max 0 (0 - 5)) 0) with (@nil str).
    change (contains (lit "DO $$") (join_nl [])) with false.
    cbn [negb andb]. now rewrite Hm, Hg.
Qed.

Lemma line_scripts_wrap_single_statement_witness :
  FixAll.fix_file inline_stmt = wrapped (lit "t1")
  /\ FixOne.fix_file inline_stmt = wrapped (lit "t1").
Proof.
  apply (line_scripts_wrap_single_statement
           (lit "SELECT 1; ") (lit "t1") (lit " SELECT 2;"));
    [reflexivity | discriminate | reflexivity | reflexivity].
Defined.

(** X6. [generate_consolidated.py] wraps that one-line file too, unless
    the line itself holds both [BEGIN] and [EXCEPTION], in which case it
    is kept as it is. *)
Theorem consolidated_single_statement :
  forall pre t rest,
    forallb not_A pre = true ->
    t <> [] -> forallb not_semicolon t = true ->
    forallb not_nl (pre ++ statement t ++ rest) = true ->
    Consolidated.transform (pre ++ statement t ++ rest)
    = if contains (lit "BEGIN") (pre ++ statement t ++ rest)
         && contains (lit "EXCEPTION") (pre ++ statement t ++ rest)
      then pre ++ statement t ++ rest
      else wrapped t.
Proof.
  intros pre t rest Hpre Hne Ht Hnl.
  set (s := pre ++ statement t ++ rest) in *.
  assert (Hc : contains PHRASE s = true) by apply statement_has_phrase.
  destruct (single_line_search pre t rest 0 Hpre Hne Ht)
    as (m & Hm & _ & _ & Hg).
  fold s in Hm. fold (re_search alter_re s) in Hm.
  unfold Consolidated.transform. rewrite Hc, (split_nl_single _ Hnl).
  cbn [Consolidated.loop_from join_nl]. unfold Consolidated.emit.
  rewrite Hc. unfold Consolidated.handled.
  change (slice [s] (Nat.max 0 (0 - 10)) (0 + 1)) with [s].
  change (slice [s] 0 (Nat.min (length [s]) (0 + 5))) with [s].
  cbn [join_nl]. rewrite orb_diag, Hm, Hg. reflexivity.
Qed.

Lemma consolidated_single_statement_witness :
  Consolidated.transform stmt_t1 = wrapped (lit "t1").
Proof.
  apply (consolidated_single_statement [] (lit "t1") []);
    [reflexivity | discriminate | reflexivity | reflexivity].
Defined.

End LineScripts.

(** ** One statement through each script, and through it again *)

Section SingleStatement.

Lemma v2_one_statement pre t rest :
  forallb not_A pre = true -> forallb not_A rest = true ->
  t <> [] -> forallb not_semicolon t = true ->
  ConsolidatedV2.transform (pre ++ statement t ++ rest)
  = pre ++ (if Nat.even (count (lit "$$") pre)
            then wrapped t else statement t) ++ rest.
Proof.
  intros Hpre Hrest Hne Ht.
  set (c := pre ++ statement t ++ rest).
  rewrite (transform_render c) by apply statement_has_phrase.
  destruct (single_line_search pre t rest 0 Hpre Hne Ht)
    as (m & Hm & Hs & He & Hg).
  fold c in Hm. rewrite Nat.add_0_l in Hs, He.
  unfold finditer. cbn [finditer_from skipn]. rewrite Hm.
  assert (Hlen : length c = S (length c - 1)).
  { unfold c, statement. rewrite !length_app. simpl. lia. }
  rewrite Hlen. cbn [finditer_from].
  assert (Hskip : skipn (m_end m) c = rest).
  { rewrite He, <- length_app. unfold c. rewrite app_assoc.
    rewrite skipn_app, skipn_all, Nat.sub_diag. reflexivity. }
  rewrite Hskip, (alter_search_none _ _ Hrest). cbn [render].
  rewrite Hskip. f_equal.
  - unfold slice. rewrite Hs, Nat.sub_0_r. cbn [skipn]. unfold c.
    rewrite firstn_app, firstn_all, Nat.sub_diag. simpl. apply app_nil_r.
  - f_equal. unfold ConsolidatedV2.part_for.
    rewrite in_do_block_odd, <- Nat.negb_even.
    unfold ConsolidatedV2.dollar_count, group0. rewrite Hs, He, Hg.
    unfold c at 1 2. rewrite firstn_app, firstn_all, Nat.sub_diag.
    simpl firstn. rewrite app_nil_r, slice_app_mid.
    now destruct (Nat.even (count (lit "$$") pre)).
Qed.

(** X7. The splicing script on a file with one statement and no capital A
    elsewhere: the statement is replaced where it stands by its wrapper when
    an even number of [$$] precedes it, and the file is returned unchanged
    when that number is odd. *)
Theorem v2_splices_single_statement :
  forall pre t rest,
    forallb not_A pre = true -> forallb not_A rest = true ->
    t <> [] -> forallb not_semicolon t = true ->
    (Nat.even (count (lit "$$") pre) = true ->
     ConsolidatedV2.transform (pre ++ statement t ++ rest)
     = pre ++ wrapped t ++ rest)
    /\ (Nat.even (count (lit "$$") pre) = false ->
        ConsolidatedV2.transform (pre ++ statement t ++ rest)
        = pre ++ statement t ++ rest).
Proof.
  intros pre t rest Hpre Hrest Hne Ht.
  rewrite (v2_one_statement pre t rest Hpre Hrest Hne Ht).
  split; intros ->; reflexivity.
Qed.

Lemma v2_splices_single_statement_witness :
  ConsolidatedV2.transform inline_stmt
  = lit "SELECT 1; " ++ wrapped (lit "t1") ++ lit " SELECT 2;".
Proof.
  apply (v2_splices_single_statement
           (lit "SELECT 1; ") (lit "t1") (lit " SELECT 2;"));
    [reflexivity | reflexivity | discriminate | reflexivity | reflexivity].
Defined.

Lemma wrapper_lines_all_wrapped t : all_wrapped (wrapper_lines t).
Proof.
  intros i line H C.
  do 8 (destruct i as [|i];
        [cbn [wrapper_lines nth_error] in H; injection H as <-;
         first [ vm_compute in C; discriminate C
               | exists t; split; [lia | reflexivity] ]|]).
  destruct i; discriminate H.
Qed.

Lemma wrapper_lines_no_end_before t : no_end_before (wrapper_lines t).
Proof.
  intros i line j l H C H1 H2 Hj.
  do 8 (destruct i as [|i];
        [cbn [wrapper_lines nth_error] in H; injection H as <-;
         first [ vm_compute in C; discriminate C
               | do 3 (destruct j as [|j];
                       [cbn [wrapper_lines nth_error] in Hj;
                        injection Hj as <-; reflexivity|]); lia ]|]).
  destruct i; discriminate H.
Qed.

Lemma fix_all_idle content :
  all_wrapped (split_nl content) -> no_end_before (split_nl content) ->
  FixAll.fix_file content = content.
Proof.
  intros W N. unfold FixAll.fix_file, FixAll.loop.
  rewrite loop_upto_idle; [reflexivity|].
  intros i line H. unfold FixAll.replacement, FixAll.needs_wrap.
  destruct (contains PHRASE line) eqn:C; [|reflexivity].
  destruct (W _ _ H C) as (t & Hi & Hs).
  pose proof (wrapper_line _ _ _ 0 Hi Hs ltac:(lia)) as Hdo.
  cbn [wrapper_lines nth_error] in Hdo. rewrite Nat.add_0_r in Hdo.
  rewrite (context_has _ i (i - 3) (lit "DO $$") (lit "DO $$"));
    [|lia|lia|exact Hdo|reflexivity].
  rewrite context_lacks; [reflexivity|discriminate|reflexivity|].
  intros j l H1 H2 Hj. exact (N _ _ _ _ H C H1 H2 Hj).
Qed.

(** X8. The wrapper is a fixed point of all four wrap scripts: run on the
    wrapper of any one-line table text, each returns it unchanged.  With
    the single-statement results this is the round trip: wrapping a bare
    statement and running the script again changes nothing more. *)
Theorem wrapper_is_fixed_point :
  forall t,
    t <> [] -> forallb not_semicolon t = true ->
    forallb not_nl t = true ->
    FixAll.fix_file (wrapped t) = wrapped t
    /\ FixOne.fix_file (wrapped t) = wrapped t
    /\ Consolidated.transform (wrapped t) = wrapped t
    /\ ConsolidatedV2.transform (wrapped t) = wrapped t.
Proof.
  intros t Hne Ht Hnl.
  pose proof (split_wrapped t Hnl) as Hsplit.
  assert (W : all_wrapped (split_nl (wrapped t)))
    by (rewrite Hsplit; apply wrapper_lines_all_wrapped).
  assert (N : no_end_before (split_nl (wrapped t)))
    by (rewrite Hsplit; apply wrapper_lines_no_end_before).
  split; [now apply fix_all_idle|].
  split; [now apply fix_migrations_keeps_wrapped|].
  split.
  - unfold Consolidated.transform.
    destruct (contains PHRASE (wrapped t)); [|reflexivity].
    rewrite (consolidated_loop_id _ W) by (intros k l H; exact H).
    apply join_split.
  - rewrite wrapped_parts.
    now rewrite (v2_one_statement wrap_head t wrap_tail).
Qed.

Lemma wrapper_is_fixed_point_witness :
  FixAll.fix_file (wrapped (lit "t1")) = wrapped (lit "t1")
  /\ FixOne.fix_file (wrapped (lit "t1")) = wrapped (lit "t1")
  /\ Consolidated.transform (wrapped (lit "t1")) = wrapped (lit "t1")
  /\ ConsolidatedV2.transform (wrapped (lit "t1")) = wrapped (lit "t1").
Proof.
  apply (wrapper_is_fixed_point (lit "t1"));
    [discriminate | reflexivity | reflexivity].
Defined.

End SingleStatement.

(** ** Comment stripping and the nesting check *)

Section StripFacts.

Import ConsolidatedV2.

Lemma split_nl_cons_char c s :
  Ascii.eqb c nl = false ->
  exists l ls, split_nl s = l :: ls /\ split_nl (c :: s) = (c :: l) :: ls.
Proof.
  intros H. cbn [split_nl]. rewrite H.
  pose proof (split_nl_nonempty s) as Hne.
  destruct (split_nl s) as [|l ls]; [congruence|]. eauto.
Qed.

(** The first line of a text starts as the text does, up to the first
    newline. *)
Lemma first_line_head c s l ls :
  split_nl s = l :: ls ->
  starts_with [c] s = true -> Ascii.eqb c nl = false ->
  starts_with [c] l = true.
Proof.
  intros Hs H Hc. destruct s as [|x s]; [discriminate|].
  cbn [starts_with] in H. apply andb_true_iff in H as [Hx _].
  apply Ascii.eqb_eq in Hx. subst x.
  destruct (split_nl_cons_char c s Hc) as (l' & ls' & _ & E).
  rewrite E in Hs. injection Hs as <- _.
  cbn [starts_with]. now rewrite Ascii.eqb_refl.
Qed.

Lemma first_line_head_inv c s l ls :
  split_nl s = l :: ls ->
  starts_with [c] l = true -> starts_with [c] s = true.
Proof.
  intros Hs H. destruct s as [|x s].
  - injection Hs as <- _. discriminate H.
  - cbn [split_nl] in Hs. destruct (Ascii.eqb x nl).
    + injection Hs as <- _. discriminate H.
    + destruct (split_nl s); injection Hs as <- _; exact H.
Qed.

Lemma map_cut_nonempty s : map cut_comment (split_nl s) <> [].
Proof.
  pose proof (split_nl_nonempty s).
  destruct (split_nl s); [congruence | discriminate].
Qed.

Lemma strip_aux_lines s :
  strip_comments_aux s false = join_nl (map cut_comment (split_nl s))
  /\ strip_comments_aux s true
     = join_nl ([] :: tl (map cut_comment (split_nl s))).
Proof.
  induction s as [|c s [IHf IHt]]; [split; reflexivity|].
  destruct (Ascii.eqb c nl) eqn:Hc.
  - (* a newline ends the line, and the comment if there is one *)
    assert (Hsplit : split_nl (c :: s) = [] :: split_nl s)
      by (cbn [split_nl]; now rewrite Hc).
    assert (Hdash : starts_with (lit "--") (c :: s) = false).
    { apply Ascii.eqb_eq in Hc. subst c. reflexivity. }
    cbn [strip_comments_aux]. rewrite Hc, Hdash, Hsplit, IHf.
    cbn [map tl]. change (cut_comment []) with (@nil ascii).
    rewrite !join_nl_cons by apply map_cut_nonempty.
    apply Ascii.eqb_eq in Hc. subst c. split; reflexivity.
  - destruct (split_nl_cons_char c s Hc) as (l & ls & Hs & Hsplit).
    rewrite Hs in IHf, IHt. cbn [map tl] in IHf, IHt.
    cbn [strip_comments_aux]. rewrite Hc, Hsplit. cbn [map tl].
    split; [|exact IHt].
    destruct (starts_with (lit "--") (c :: s)) eqn:Hdash.
    + (* the comment starts here: the line is cut to nothing *)
      rewrite IHt. f_equal. f_equal.
      change (lit "--") with ("-"%char :: ["-"%char]) in Hdash.
      cbn [starts_with] in Hdash.
      apply andb_true_iff in Hdash as [Hc1 Hrest].
      assert (Hl : starts_with ["-"%char] l = true).
      { apply (first_line_head _ s l ls Hs); [|reflexivity].
        cbn [starts_with]. exact Hrest. }
      unfold cut_comment. change (lit "--") with ("-"%char :: ["-"%char]).
      cbn [find starts_with]. cbn [starts_with] in Hl.
      now rewrite Hc1, Hl.
    + (* an ordinary character: it stays, the line goes on *)
      rewrite IHf.
      assert (Hdl : starts_with (lit "--") (c :: l) = false).
      { destruct (starts_with (lit "--") (c :: l)) eqn:E; [|reflexivity].
        change (lit "--") with ("-"%char :: ["-"%char]) in *.
        cbn [starts_with] in E, Hdash.
        apply andb_true_iff in E as [E1 E2]. rewrite E1 in Hdash.
        cbn [andb] in Hdash.
        pose proof (first_line_head_inv "-"%char s l ls Hs) as Hinv.
        cbn [starts_with] in Hinv. rewrite (Hinv E2) in Hdash.
        discriminate. }
      assert (Hcut : cut_comment (c :: l) = c :: cut_comment l).
      { unfold cut_comment. cbn [find]. rewrite Hdl.
        destruct (find (lit "--") l); reflexivity. }
      rewrite Hcut. destruct ls; reflexivity.
Qed.

(** X9. Comment stripping works line by line: the stripped text is the
    input with every line cut at its first [--]; the newlines stay, so the
    number of lines does not change. *)
Theorem strip_comments_cuts_each_line :
  forall content,
    strip_comments content
    = join_nl (map cut_comment (split_nl content))
    /\ length (split_nl (strip_comments content))
       = length (split_nl content).
Proof.
  intros content.
  pose proof (proj1 (strip_aux_lines content)) as H.
  split; [exact H|].
  unfold strip_comments. clear H.
  assert (G : forall s b,
             length (split_nl (strip_comments_aux s b))
             = length (split_nl s)).
  { induction s as [|c s IH]; intros b; [reflexivity|].
    cbn [strip_comments_aux].
    destruct (Ascii.eqb c nl) eqn:Hc.
    - assert (Hdash : starts_with (lit "--") (c :: s) = false)
        by (apply Ascii.eqb_eq in Hc; subst c; reflexivity).
      rewrite Hdash.
      assert (E : split_nl (c :: strip_comments_aux s false)
                  = [] :: split_nl (strip_comments_aux s false))
        by (cbn [split_nl]; now rewrite Hc).
      destruct b; rewrite E; cbn [split_nl]; rewrite Hc;
        cbn [length]; now rewrite IH.
    - destruct (split_nl_cons_char c s Hc) as (l & ls & Hs & Hsplit).
      rewrite Hsplit. cbn [length].
      destruct b; [rewrite IH, Hs; reflexivity|].
      destruct (starts_with (lit "--") (c :: s));
        [rewrite IH, Hs; reflexivity|].
      destruct (split_nl_cons_char c (strip_comments_aux s false) Hc)
        as (l' & ls' & Hs' & Hsplit').
      rewrite Hsplit'. cbn [length].
      pose proof (IH false) as IHf. rewrite Hs', Hs in IHf.
      cbn [length] in IHf. exact IHf. }
  apply G.
Qed.

Lemma count_positive_find (p s : str) :
  p <> [] -> 0 < count p s -> exists i, find p s = Some i.
Proof.
  intros Hp. unfold count. destruct p as [|a p]; [congruence|]. clear Hp.
  induction s as [|c s IH]; intros H; [inversion H|].
  cbn [count_skip] in H. cbn [find].
  destruct (starts_with (a :: p) (c :: s)); [eauto|].
  destruct (IH H) as [i ->]. simpl. eauto.
Qed.

(** Two occurrences of [DO $$] are enough for the nesting pattern. *)
Lemma nested_when_two_blocks content :
  1 < CheckNesting.do_count content ->
  CheckNesting.nested_pattern (strip_comments content) = true.
Proof.
  intros H.
  assert (Hp : lit "DO $$" <> []) by (vm_compute; discriminate).
  unfold CheckNesting.do_count in H. unfold CheckNesting.nested_pattern.
  destruct (count_positive_find (lit "DO $$") (strip_comments content)
              Hp ltac:(lia)) as [i Hi].
  rewrite Hi. pose proof (count_find _ _ _ Hp Hi) as C.
  change (length (lit "DO $$")) with 5 in C.
  destruct (count_positive_find (lit "DO $$")
              (skipn (i + 5) (strip_comments content)) Hp ltac:(lia))
    as [j Hj].
  unfold contains. now rewrite Hj.
Qed.

(** X10. The nesting test of [check_nesting.py] cannot fail: whenever a
    file is reported for holding more than one [DO $$], the warning about
    potential nesting is printed as well.  A report is empty or has both
    lines. *)
Theorem check_nesting_always_flags :
  forall filename content,
    1 < CheckNesting.do_count content ->
    CheckNesting.nested_pattern (strip_comments content) = true
    /\ length (CheckNesting.report filename content) = 2.
Proof.
  intros filename content H.
  pose proof (nested_when_two_blocks _ H) as N.
  split; [exact N|].
  unfold CheckNesting.report.
  apply Nat.ltb_lt in H. now rewrite H, N.
Qed.

Lemma check_nesting_always_flags_witness :
  CheckNesting.nested_pattern (strip_comments two_wrapped) = true
  /\ length (CheckNesting.report (lit "a.sql") two_wrapped) = 2.
Proof.
  apply check_nesting_always_flags. vm_compute. lia.
Defined.

End StripFacts.

(** ** extract_functions.py: the extent of a function statement *)

Section FunctionExtent.

Import Extract.

Lemma contains_cons_eq (p : str) (c : ascii) (x : str) :
  contains p (c :: x) = starts_with p (c :: x) || contains p x.
Proof.
  unfold contains. cbn [find].
  destruct (starts_with p (c :: x)); [reflexivity|].
  now destruct (find p x).
Qed.

Lemma marker_head_same (c : ascii) (a b : str) :
  starts_with (lit "$$") (c :: a ++ lit "$")
  = starts_with (lit "$$") (c :: a ++ lit "$$" ++ b).
Proof.
  change (lit "$$") with ("$"%char :: ["$"%char]).
  cbn [starts_with]. f_equal. now destruct a.
Qed.

Lemma find_marker_iff (s : str) (i : nat) :
  find (lit "$$") s = Some i
  <-> exists a b, s = a ++ lit "$$" ++ b /\ length a = i /\ marker_free a.
Proof.
  split.
  - revert i; induction s as [|c s IH]; intros i H; [discriminate|].
    cbn [find] in H.
    destruct (starts_with (lit "$$") (c :: s)) eqn:E.
    + injection H as <-. apply starts_with_inv in E as [b E].
      exists [], b. now repeat split.
    + destruct (find (lit "$$") s) as [j|]; [|discriminate].
      injection H as <-.
      destruct (IH j eq_refl) as (a & b & -> & <- & Ha).
      exists (c :: a), b. repeat split. unfold marker_free in *.
      cbn [app]. now rewrite contains_cons_eq, (marker_head_same c a b), E, Ha.
  - intros (a & b & -> & <- & Ha).
    induction a as [|c a IH]; [reflexivity|].
    unfold marker_free in Ha. cbn [app] in Ha.
    rewrite contains_cons_eq in Ha. apply orb_false_iff in Ha as [H1 H2].
    cbn [app find]. rewrite <- marker_head_same, H1.
    now rewrite (IH H2).
Qed.

Lemma find_semicolon_iff (s : str) (i : nat) :
  find (lit ";") s = Some i
  <-> exists a b, s = a ++ lit ";" ++ b /\ length a = i
                  /\ forallb not_semicolon a = true.
Proof.
  split.
  - revert i; induction s as [|c s IH]; intros i H; [discriminate|].
    cbn [find] in H.
    destruct (starts_with (lit ";") (c :: s)) eqn:E.
    + injection H as <-. apply starts_with_inv in E as [b E].
      exists [], b. now repeat split.
    + destruct (find (lit ";") s) as [j|]; [|discriminate].
      injection H as <-.
      destruct (IH j eq_refl) as (a & b & -> & <- & Ha).
      exists (c :: a), b. repeat split. cbn [forallb]. rewrite Ha.
      change (lit ";") with [";"%char] in E. cbn [starts_with] in E.
      rewrite andb_true_r, Ascii.eqb_sym in E.
      unfold not_semicolon. now rewrite E.
  - intros (a & b & -> & <- & Ha).
    induction a as [|c a IH]; [reflexivity|].
    cbn [forallb] in Ha. apply andb_true_iff in Ha as [H1 H2].
    unfold not_semicolon in H1. apply negb_true_iff in H1.
    cbn [app find]. change (lit ";") with [";"%char]. cbn [starts_with].
    rewrite Ascii.eqb_sym, H1. cbn [andb].
    change [";"%char] with (lit ";"). now rewrite (IH H2).
Qed.

(** The search for the extent, told on the text from the match on. *)
Lemma function_fragment_suffix filename content start :
  function_fragment filename content start
  = let s := skipn start content in
    match find (lit "$$") s with
    | Some i =>
        match find (lit "$$") (skipn (i + 2) s) with
        | Some j =>
            match find (lit ";") (skipn (j + 2 + (i + 2)) s) with
            | Some k =>
                Some (header filename
                        ++ firstn (i + 2 + (j + 2) + (k + 1)) s ++ [nl])
            | None => None
            end
        | None => None
        end
    | None => None
    end.
Proof.
  cbv zeta. unfold function_fragment.
  destruct (find (lit "$$") (skipn start content)) as [i|]; [|reflexivity].
  rewrite skipn_skipn.
  replace (start + i + 2) with (i + 2 + start) by lia.
  destruct (find (lit "$$") (skipn (i + 2 + start) content)) as [j|];
    [|reflexivity].
  rewrite skipn_skipn.
  replace (i + 2 + start + (j + 2)) with (j + 2 + (i + 2) + start) by lia.
  destruct (find (lit ";") (skipn (j + 2 + (i + 2) + start) content))
    as [k|]; [|reflexivity].
  unfold slice.
  replace (j + 2 + (i + 2) + start + (k + 1) - start)
    with (i + 2 + (j + 2) + (k + 1)) by lia.
  reflexivity.
Qed.

Lemma skipn_past {A} (a b : list A) n :
  n = length a -> skipn n (a ++ b) = b.
Proof. intros ->. now rewrite skipn_app, skipn_all, Nat.sub_diag. Qed.

Lemma firstn_upto {A} (a b : list A) n :
  n = length a -> firstn n (a ++ b) = a.
Proof.
  intros ->. rewrite firstn_app, firstn_all, Nat.sub_diag. simpl.
  apply app_nil_r.
Qed.

(** A fragment is the text from the match through the first [;] after the
    body. *)
Lemma function_fragment_shape filename content start f :
  function_fragment filename content start = Some f ->
  exists head body tail rest,
    skipn start content
    = head ++ lit "$$" ++ body ++ lit "$$" ++ tail ++ lit ";" ++ rest
    /\ marker_free head /\ marker_free body
    /\ forallb not_semicolon tail = true
    /\ f = header filename
            ++ (head ++ lit "$$" ++ body ++ lit "$$" ++ tail ++ lit ";")
            ++ [nl].
Proof.
  rewrite function_fragment_suffix. cbv zeta.
  set (s := skipn start content). intros H.
  destruct (find (lit "$$") s) as [i|] eqn:Fi; [|discriminate].
  destruct (find (lit "$$") (skipn (i + 2) s)) as [j|] eqn:Fj;
    [|discriminate].
  destruct (find (lit ";") (skipn (j + 2 + (i + 2)) s)) as [k|] eqn:Fk;
    [|discriminate].
  injection H as <-.
  apply find_marker_iff in Fi as (head & r1 & Es & Hi & Hh).
  rewrite Es in Fj, Fk |- *.
  rewrite app_assoc, skipn_past in Fj
    by (rewrite length_app; simpl; lia).
  apply find_marker_iff in Fj as (body & r2 & -> & Hj & Hb).
  replace (head ++ lit "$$" ++ body ++ lit "$$" ++ r2)
    with ((head ++ lit "$$" ++ body ++ lit "$$") ++ r2) in Fk
    by now rewrite <- !app_assoc.
  rewrite skipn_past in Fk by (rewrite !length_app; simpl; lia).
  apply find_semicolon_iff in Fk as (tail & rest & -> & Hk & Ht).
  exists head, body, tail, rest. repeat split; auto.
  replace (head ++ lit "$$" ++ body ++ lit "$$" ++ tail ++ lit ";" ++ rest)
    with ((head ++ lit "$$" ++ body ++ lit "$$" ++ tail ++ lit ";")
            ++ rest)
    by now rewrite <- !app_assoc.
  rewrite firstn_upto by (rewrite !length_app; simpl; lia).
  reflexivity.
Qed.

(** A text of that shape yields its fragment. *)
Lemma function_fragment_of_shape filename content start head body tail rest :
  skipn start content
  = head ++ lit "$$" ++ body ++ lit "$$" ++ tail ++ lit ";" ++ rest ->
  marker_free head -> marker_free body ->
  forallb not_semicolon tail = true ->
  function_fragment filename content start
  = Some (header filename
            ++ (head ++ lit "$$" ++ body ++ lit "$$" ++ tail ++ lit ";")
            ++ [nl]).
Proof.
  intros Es Hh Hb Ht.
  rewrite function_fragment_suffix. cbv zeta. rewrite Es.
  assert (Fi : find (lit "$$")
                 (head ++ lit "$$" ++ body ++ lit "$$" ++ tail ++ lit ";"
                       ++ rest) = Some (length head))
    by (apply find_marker_iff; eauto 6).
  rewrite Fi.
  rewrite (app_assoc head), (skipn_past (head ++ lit "$$"))
    by (rewrite length_app; simpl; lia).
  assert (Fj : find (lit "$$")
                 (body ++ lit "$$" ++ tail ++ lit ";" ++ rest)
               = Some (length body))
    by (apply find_marker_iff; eauto 6).
  rewrite Fj.
  replace ((head ++ lit "$$") ++ body ++ lit "$$" ++ tail ++ lit ";"
             ++ rest)
    with ((head ++ lit "$$" ++ body ++ lit "$$") ++ tail ++ lit ";"
            ++ rest)
    by now rewrite <- !app_assoc.
  rewrite skipn_past by (rewrite !length_app; simpl; lia).
  assert (Fk : find (lit ";") (tail ++ lit ";" ++ rest)
               = Some (length tail))
    by (apply find_semicolon_iff; eauto 6).
  rewrite Fk.
  replace ((head ++ lit "$$" ++ body ++ lit "$$") ++ tail ++ lit ";"
             ++ rest)
    with ((head ++ lit "$$" ++ body ++ lit "$$" ++ tail ++ lit ";")
            ++ rest)
    by now rewrite <- !app_assoc.
  rewrite firstn_upto by (rewrite !length_app; simpl; lia).
  reflexivity.
Qed.

(** X11. The extent of an extracted function.  A match yields a fragment
    exactly when the text from the match on reads: a head up to the first
    [$$], a body up to the next [$$], a tail free of [;], and a [;].  The
    fragment is then the header line and that text, keyword through
    terminator, byte for byte. *)
Theorem function_fragment_exact :
  forall filename content start f,
    function_fragment filename content start = Some f
    <-> exists head body tail rest,
          skipn start content
          = head ++ lit "$$" ++ body ++ lit "$$" ++ tail ++ lit ";" ++ rest
          /\ marker_free head /\ marker_free body
          /\ forallb not_semicolon tail = true
          /\ f = header filename
                  ++ (head ++ lit "$$" ++ body ++ lit "$$" ++ tail
                        ++ lit ";")
                  ++ [nl].
Proof.
  intros filename content start f. split.
  - apply function_fragment_shape.
  - intros (head & body & tail & rest & Es & Hh & Hb & Ht & ->).
    now apply (function_fragment_of_shape _ _ _ _ _ _ rest).
Qed.

End FunctionExtent.

(** ** generate_consolidated_v2.py: running it on its own output *)

Section CountFacts.

Lemma marker_at_seam (c : ascii) (x y : str) :
  seam_clean (c :: x) y = true ->
  starts_with (lit "$$") (c :: x ++ y) = starts_with (lit "$$") (c :: x).
Proof.
  change (lit "$$") with ("$"%char :: ["$"%char]). cbn [starts_with].
  destruct x as [|d x]; [|reflexivity].
  unfold seam_clean. cbn [last app]. intros H.
  destruct y as [|e y]; cbn [starts_with hd] in *;
    [now rewrite andb_false_r|].
  rewrite andb_true_r. apply negb_true_iff in H.
  rewrite (Ascii.eqb_sym "$"%char c), (Ascii.eqb_sym "$"%char e).
  rewrite andb_false_r. exact H.
Qed.

Lemma seam_clean_tail (c d : ascii) (x y : str) :
  seam_clean (c :: d :: x) y = seam_clean (d :: x) y.
Proof. reflexivity. Qed.

Lemma count_skip_seam (x y : str) :
  seam_clean x y = true ->
  forall k, k <= length x ->
    count_skip (lit "$$") (x ++ y) k
    = count_skip (lit "$$") x k + count_skip (lit "$$") y 0.
Proof.
  induction x as [|c x IH]; intros H k Hk.
  - simpl in Hk. replace k with 0 by lia. reflexivity.
  - cbn [app count_skip]. destruct k as [|k].
    + rewrite (marker_at_seam _ _ _ H).
      destruct (starts_with (lit "$$") (c :: x)) eqn:E.
      * destruct x as [|d x].
        { change (lit "$$") with ("$"%char :: ["$"%char]) in E.
          cbn [starts_with] in E. rewrite andb_false_r in E.
          discriminate E. }
        rewrite seam_clean_tail in H.
        change (length (lit "$$") - 1) with 1.
        rewrite (IH H 1) by (simpl; lia). reflexivity.
      * destruct x as [|d x]; [reflexivity|].
        rewrite seam_clean_tail in H. now rewrite (IH H 0) by lia.
    + simpl in Hk. destruct x as [|d x].
      * simpl in Hk. replace k with 0 by lia. reflexivity.
      * rewrite seam_clean_tail in H. apply (IH H). lia.
Qed.

(** Counting markers splits at a seam no marker lies across. *)
Lemma count_seam (x y : str) :
  seam_clean x y = true ->
  count (lit "$$") (x ++ y) = count (lit "$$") x + count (lit "$$") y.
Proof. intros H. apply (count_skip_seam x y H 0). lia. Qed.

Lemma last_snoc (u : str) (c d : ascii) : last (u ++ [c]) d = c.
Proof. apply last_last. Qed.

Lemma count_closed_nil : count_closed [].
Proof. intros y. reflexivity. Qed.

Lemma count_closed_semicolon (u : str) : count_closed (u ++ lit ";").
Proof.
  intros y. apply count_seam. unfold seam_clean.
  change (lit ";") with [";"%char]. now rewrite last_snoc.
Qed.

Lemma statement_snoc t :
  statement t = (PHRASE ++ lit " " ++ t) ++ lit ";".
Proof. unfold statement. now rewrite <- !app_assoc. Qed.

Lemma count_closed_statement (u : str) t : count_closed (u ++ statement t).
Proof.
  rewrite statement_snoc, app_assoc. apply count_closed_semicolon.
Qed.

Lemma count_statement_tail t :
  count (lit "$$") (statement t ++ wrap_tail)
  = count (lit "$$") (statement t) + 1.
Proof. exact (count_closed_statement [] t wrap_tail). Qed.

Lemma count_seam_hd (u y : str) :
  Ascii.eqb (hd " "%char y) "$"%char = false ->
  count (lit "$$") (u ++ y) = count (lit "$$") u + count (lit "$$") y.
Proof.
  intros H. apply count_seam. unfold seam_clean.
  now rewrite H, andb_false_r.
Qed.

(** Wrapping a statement adds two markers to any text that ends in it. *)
Lemma count_wrapped_after (a : str) (t : str) :
  count (lit "$$") (a ++ wrap_head ++ statement t ++ wrap_tail)
  = count (lit "$$") (a ++ statement t) + 2.
Proof.
  rewrite (count_seam_hd a (wrap_head ++ statement t ++ wrap_tail) eq_refl).
  rewrite (count_seam_hd wrap_head (statement t ++ wrap_tail) eq_refl).
  rewrite count_statement_tail.
  rewrite (count_seam_hd a (statement t) eq_refl).
  change (count (lit "$$") wrap_head) with 1. lia.
Qed.

End CountFacts.

Section RescanFacts.

Lemma match_here_statement t rest :
  t <> [] -> forallb not_semicolon t = true ->
  match_here alter_re (statement t ++ rest)
  = Some (rest, set_cap 1 t no_caps).
Proof.
  intros Hne Ht.
  change (statement t ++ rest) with ([] ++ statement t ++ rest).
  rewrite statement_unfold. now apply alter_match_here.
Qed.

Lemma match_here_inv s b cp :
  match_here alter_re s = Some (b, cp) ->
  exists t, s = statement t ++ b /\ t <> []
            /\ forallb not_semicolon t = true
            /\ cp = set_cap 1 t no_caps.
Proof.
  intros H. apply match_here_sound in H as (w & -> & M).
  apply matches_alter in M as (t & -> & Hne & Ht & ->).
  exists t. now repeat split.
Qed.

Lemma search_at_none_pos r s p q :
  search_at r s p = None -> search_at r s q = None.
Proof.
  revert p q; induction s as [|x s IH]; intros p q H; simpl in *.
  - destruct (match_here r []) as [[s' c]|]; [discriminate | reflexivity].
  - destruct (match_here r (x :: s)) as [[s' c]|]; [discriminate|].
    now apply (IH (S p)).
Qed.

Lemma clear_nil y : clear [] y.
Proof.
  intros g1 g2 E Hne. symmetry in E. apply app_eq_nil in E as [_ ->].
  congruence.
Qed.

Lemma clear_tail x g y : clear (x :: g) y -> clear g y.
Proof. intros H g1 g2 E. apply (H (x :: g1) g2). now rewrite E. Qed.

Lemma clear_cons x g y :
  match_here alter_re (x :: g ++ y) = None -> clear g y ->
  clear (x :: g) y.
Proof.
  intros H0 H g1 g2 E Hne. destruct g1 as [|c g1]; simpl in E.
  - subst g2. exact H0.
  - injection E as -> E. now apply (H g1 g2).
Qed.

Lemma clear_not_A g y : forallb not_A g = true -> clear g y.
Proof.
  induction g as [|x g IH]; intros H; [apply clear_nil|].
  cbn [forallb] in H. apply andb_true_iff in H as [Hx Hg].
  apply clear_cons; [now apply alter_no_match_here | now apply IH].
Qed.

Lemma clear_app g1 g2 y :
  clear g1 (g2 ++ y) -> clear g2 y -> clear (g1 ++ g2) y.
Proof.
  induction g1 as [|x g1 IH]; intros H1 H2; [exact H2|].
  cbn [app]. apply clear_cons.
  - pose proof (H1 [] (x :: g1) eq_refl ltac:(discriminate)) as H0.
    cbn [app] in H0. now rewrite <- app_assoc.
  - apply IH; [now apply (clear_tail x) | exact H2].
Qed.

Lemma search_at_skip g y pos :
  clear g y ->
  search_at alter_re (g ++ y) pos = search_at alter_re y (pos + length g).
Proof.
  revert pos; induction g as [|x g IH]; intros pos H.
  - simpl. now rewrite Nat.add_0_r.
  - pose proof (H [] (x :: g) eq_refl ltac:(discriminate)) as H0.
    cbn [app] in H0. cbn [app search_at]. rewrite H0.
    rewrite (IH _ (clear_tail _ _ _ H)). f_equal. simpl. lia.
Qed.

(** A search that succeeds found the leftmost statement. *)
Lemma search_at_leftmost s pos m :
  search_at alter_re s pos = Some m ->
  exists a t b,
    s = a ++ statement t ++ b
    /\ clear a (statement t ++ b)
    /\ t <> [] /\ forallb not_semicolon t = true
    /\ m_start m = pos + length a
    /\ m_end m = pos + length a + length (statement t)
    /\ group m 1 = t.
Proof.
  assert (Here : forall s pos s' c,
    match_here alter_re s = Some (s', c) ->
    exists a t b,
      s = a ++ statement t ++ b
      /\ clear a (statement t ++ b)
      /\ t <> [] /\ forallb not_semicolon t = true
      /\ pos = pos + length a
      /\ pos + (length s - length s') = pos + length a + length (statement t)
      /\ match c 1 with Some w => w | None => [] end = t).
  { intros s0 pos0 s' c E.
    apply match_here_inv in E as (t & -> & Hne & Ht & ->).
    exists [], t, s'. rewrite length_app. cbn [length app].
    repeat split; auto; try lia; try apply clear_nil. }
  revert pos; induction s as [|x s IH]; intros pos H; cbn [search_at] in H.
  - destruct (match_here alter_re []) as [[s' c]|] eqn:E; [|discriminate].
    injection H as <-. exact (Here _ pos _ _ E).
  - destruct (match_here alter_re (x :: s)) as [[s' c]|] eqn:E.
    + injection H as <-. exact (Here _ pos _ _ E).
    + destruct (IH _ H) as (a & t & b & -> & Hc & Hne & Ht & Hs & He & Hg).
      exists (x :: a), t, b. cbn [app length].
      repeat split; auto; try lia. now apply clear_cons.
Qed.

Lemma search_at_found a t b pos :
  clear a (statement t ++ b) ->
  t <> [] -> forallb not_semicolon t = true ->
  search_at alter_re (a ++ statement t ++ b) pos
  = Some (mkMatch (pos + length a)
            (pos + length a + length (statement t))
            (set_cap 1 t no_caps)).
Proof.
  intros Hc Hne Ht. rewrite (search_at_skip _ _ _ Hc).
  rewrite (search_at_here _ _ _ _ _ (match_here_statement t b Hne Ht)).
  do 2 f_equal. rewrite length_app. lia.
Qed.

Lemma first_semicolon (z : str) :
  In ";"%char z ->
  exists u r, z = u ++ ";"%char :: r /\ forallb not_semicolon u = true.
Proof.
  induction z as [|x z IH]; [contradiction|].
  destruct (Ascii.eqb x ";"%char) eqn:E.
  - intros _. apply Ascii.eqb_eq in E. subst x. now exists [], z.
  - intros [->|Hin]; [now rewrite Ascii.eqb_refl in E|].
    destruct (IH Hin) as (u & r & -> & Hu).
    exists (x :: u), r. split; [reflexivity|].
    cbn [forallb]. unfold not_semicolon at 1. now rewrite E.
Qed.

(** After the fixed prefix, a first character other than [;] and a [;]
    somewhere later make a statement. *)
Lemma statement_after_prefix (x : ascii) (z : str) :
  not_semicolon x = true -> In ";"%char z ->
  match_here alter_re (stmt_prefix ++ x :: z) <> None.
Proof.
  intros Hx Hin. destruct (first_semicolon z Hin) as (u & r & -> & Hu).
  assert (E : stmt_prefix ++ x :: u ++ ";"%char :: r
              = statement (x :: u) ++ r).
  { unfold stmt_prefix, statement. now rewrite <- !app_assoc. }
  rewrite E, match_here_statement; [discriminate | discriminate |].
  cbn [forallb]. now rewrite Hx, Hu.
Qed.

Lemma starts_with_short (l y1 y2 : str) :
  starts_with l (y1 ++ y2) = true -> length l <= length y1 ->
  starts_with l y1 = true.
Proof.
  revert y1; induction l as [|c l IH]; intros y1 H Hlen; [reflexivity|].
  destruct y1 as [|d y1]; [simpl in Hlen; lia|].
  cbn [app starts_with] in *. apply andb_true_iff in H as [H1 H2].
  rewrite H1. apply IH; [exact H2 | simpl in Hlen; lia].
Qed.

Lemma no_overlap_spec (yfix more g l : str) :
  no_overlap yfix = true ->
  stmt_prefix = g ++ l -> g <> [] -> l <> [] ->
  length l <= length yfix ->
  starts_with l (yfix ++ more) = false.
Proof.
  intros Hno E Hg Hl Hlen.
  destruct (starts_with l (yfix ++ more)) eqn:S; [|reflexivity].
  apply starts_with_short in S; [|exact Hlen].
  unfold no_overlap in Hno. rewrite forallb_forall in Hno.
  assert (Hk : In (length g) (seq 1 (length stmt_prefix - 1))).
  { apply in_seq. rewrite E, length_app.
    destruct g; [congruence|]. destruct l; [congruence|]. simpl. lia. }
  apply Hno in Hk. rewrite E in Hk at 1.
  rewrite skipn_app, skipn_all, Nat.sub_diag in Hk. simpl in Hk.
  rewrite S in Hk. discriminate.
Qed.

Lemma statement_prefix_form t b :
  statement t ++ b = stmt_prefix ++ t ++ lit ";" ++ b.
Proof. unfold statement, stmt_prefix. now rewrite <- !app_assoc. Qed.

(** The text that follows a gap can change from the statement to the same
    statement with another continuation, or to its wrapper, without a
    statement appearing inside the gap. *)
Lemma clear_change (a : str) (t b : str) (yfix more : str) :
  clear a (statement t ++ b) ->
  no_overlap yfix = true -> length stmt_prefix <= length yfix ->
  clear a (yfix ++ more).
Proof.
  intros Hc Hno Hlen g1 g2 E Hne.
  destruct (match_here alter_re (g2 ++ yfix ++ more)) as [[bb cp]|] eqn:M;
    [|reflexivity].
  exfalso.
  pose proof (Hc g1 g2 E Hne) as Horig.
  apply match_here_inv in M as (t' & Et & Hne' & Ht' & _).
  rewrite statement_prefix_form in Et.
  apply app_eq_app in Et as [l [[Eg El]|[Ep Ey]]].
  - (* the gap holds the whole prefix *)
    revert Horig. rewrite Eg, <- app_assoc.
    destruct l as [|x l].
    + cbn [app]. unfold statement.
      change (PHRASE ++ lit " " ++ t ++ lit ";")
        with ("A"%char :: tl PHRASE ++ lit " " ++ t ++ lit ";").
      cbn [app]. apply statement_after_prefix; [reflexivity|].
      apply in_or_app. left. apply in_or_app. right.
      apply in_or_app. right. apply in_or_app. right. now left.
    + cbn [app]. apply statement_after_prefix.
      * destruct t' as [|x' t']; [congruence|].
        cbn [app] in El. injection El as <- _.
        cbn [forallb] in Ht'. now apply andb_true_iff in Ht' as [Hx _].
      * apply in_or_app. right. unfold statement.
        apply in_or_app. left.
        apply in_or_app. right. apply in_or_app. right.
        apply in_or_app. right. now left.
  - destruct l as [|x l].
    + (* the gap is exactly the prefix *)
      rewrite app_nil_r in Ep. revert Horig. rewrite <- Ep.
      unfold statement.
      change (PHRASE ++ lit " " ++ t ++ lit ";")
        with ("A"%char :: tl PHRASE ++ lit " " ++ t ++ lit ";").
      cbn [app]. apply statement_after_prefix; [reflexivity|].
      apply in_or_app. left. apply in_or_app. right.
      apply in_or_app. right. apply in_or_app. right. now left.
    + (* the prefix would lie across the end of the gap *)
      assert (Hl : length (x :: l) <= length yfix).
      { rewrite Ep, length_app in Hlen. lia. }
      pose proof (no_overlap_spec yfix more g2 (x :: l) Hno Ep Hne
                    ltac:(discriminate) Hl) as S.
      rewrite Ey, starts_with_app in S. discriminate.
Qed.

End RescanFacts.

Section Rescan.

Import ConsolidatedV2.

Lemma render_none content p fuel :
  search_at alter_re (skipn p content) p = None ->
  render content (finditer_from fuel alter_re content p) p
  = skipn p content.
Proof.
  intros H. destruct fuel; [reflexivity|].
  cbn [finditer_from]. now rewrite H.
Qed.

(** One round of the loop on a text whose next statement is known. *)
Lemma render_step T lead gap t rest fuel p :
  T = lead ++ gap ++ statement t ++ rest -> p = length lead ->
  clear gap (statement t ++ rest) ->
  t <> [] -> forallb not_semicolon t = true ->
  render T (finditer_from (S fuel) alter_re T p) p
  = gap
    ++ (if Nat.even (count (lit "$$") (lead ++ gap))
        then wrapped t else statement t)
    ++ render T (finditer_from fuel alter_re T
                   (p + length gap + length (statement t)))
         (p + length gap + length (statement t)).
Proof.
  intros ET Ep Hc Hne Ht.
  assert (Hskip : skipn p T = gap ++ statement t ++ rest)
    by (rewrite ET; now apply skipn_past).
  cbn [finditer_from]. rewrite Hskip, (search_at_found _ _ _ _ Hc Hne Ht).
  cbn [render m_start m_end]. f_equal; [|f_equal].
  - unfold slice. replace (p + length gap - p) with (length gap) by lia.
    rewrite Hskip. now apply firstn_upto.
  - assert (Hpre : firstn (p + length gap) T = lead ++ gap).
    { rewrite ET, app_assoc. apply firstn_upto.
      rewrite length_app. lia. }
    assert (Hst : slice T (p + length gap)
                    (p + length gap + length (statement t))
                  = statement t).
    { rewrite ET, app_assoc, Ep, <- length_app. apply slice_app_mid. }
    unfold part_for. rewrite in_do_block_odd, <- Nat.negb_even.
    unfold dollar_count, group0. cbn [m_start m_end]. rewrite Hpre, Hst.
    unfold group. cbn [m_groups set_cap Nat.eqb].
    now destruct (Nat.even (count (lit "$$") (lead ++ gap))).
Qed.

Lemma even_shift (n1 n2 k : nat) :
  Nat.even n1 = Nat.even n2 -> Nat.even (n1 + k) = Nat.even (n2 + k).
Proof. intros H. now rewrite !Nat.even_add, H. Qed.

Lemma even_plus_two (n : nat) : Nat.even (n + 2) = Nat.even n.
Proof. now replace (n + 2) with (S (S n)) by lia. Qed.

Lemma wrap_tail_snoc :
  wrap_tail = firstn (length wrap_tail - 1) wrap_tail ++ lit ";".
Proof. reflexivity. Qed.

(** The heart of the matter: what the loop produced from position [pos]
    on is reproduced, not rewritten, when the loop runs over the output.
    [lead] is the output so far, [x] the end of a wrapper still to be
    passed. *)
Lemma rescan content :
  forall fuel pos lead x fuel2,
    pos <= length content ->
    length content - pos < fuel ->
    forallb not_A x = true ->
    count_closed (lead ++ x) ->
    count_closed (firstn pos content) ->
    Nat.even (count (lit "$$") (lead ++ x))
    = Nat.even (count (lit "$$") (firstn pos content)) ->
    length (x ++ render content
                   (finditer_from fuel alter_re content pos) pos)
    < fuel2 ->
    render
      (lead ++ x ++ render content
                      (finditer_from fuel alter_re content pos) pos)
      (finditer_from fuel2 alter_re
         (lead ++ x ++ render content
                         (finditer_from fuel alter_re content pos) pos)
         (length lead))
      (length lead)
    = x ++ render content (finditer_from fuel alter_re content pos) pos.
Proof.
  induction fuel as [|f IH]; intros pos lead x fuel2 Hpos Hfuel Hx Cl Cc Par
    Hf2; [lia|].
  destruct (search_at alter_re (skipn pos content) pos) as [m|] eqn:E.
  - (* a statement is found at or after [pos] *)
    destruct (search_at_leftmost _ _ _ E)
      as (a & t & b & Es & Hclear & Hne & Ht & _ & _ & _).
    assert (EC : content = firstn pos content ++ a ++ statement t ++ b)
      by (rewrite <- Es; symmetry; apply firstn_skipn).
    assert (Lp : pos = length (firstn pos content))
      by (rewrite length_firstn; lia).
    rewrite (render_step content (firstn pos content) a t b f pos EC Lp
               Hclear Hne Ht) in *.
    set (pos' := pos + length a + length (statement t)) in *.
    set (R' := render content (finditer_from f alter_re content pos') pos')
      in *.
    assert (Hpos' : pos' <= length content).
    { unfold pos'. rewrite EC at 1. rewrite !length_app, <- Lp. lia. }
    assert (Hfuel' : length content - pos' < f).
    { assert (1 <= length (statement t))
        by (unfold statement; rewrite !length_app; simpl; lia).
      unfold pos' in *. lia. }
    assert (Fp : firstn pos' content
                 = firstn pos content ++ a ++ statement t).
    { rewrite EC at 1. rewrite !app_assoc. apply firstn_upto.
      unfold pos'. rewrite !length_app. lia. }
    assert (Cc' : count_closed (firstn pos' content)).
    { rewrite Fp, app_assoc. apply count_closed_statement. }
    assert (Ca : count (lit "$$") (firstn pos content ++ a)
                 = count (lit "$$") (firstn pos content)
                   + count (lit "$$") a) by apply Cc.
    assert (Cla : count (lit "$$") (lead ++ x ++ a)
                  = count (lit "$$") (lead ++ x) + count (lit "$$") a)
      by (rewrite app_assoc; apply Cl).
    assert (Pa : Nat.even (count (lit "$$") (lead ++ x ++ a))
                 = Nat.even (count (lit "$$") (firstn pos content ++ a)))
      by (rewrite Ca, Cla; now apply even_shift).
    destruct fuel2 as [|f2]; [lia|].
    destruct (Nat.even (count (lit "$$") (firstn pos content ++ a))) eqn:Ev.
    + (* it was wrapped: in the output it stands behind the wrapper head *)
      rewrite wrapped_parts in *.
      set (OUT := lead ++ x ++ a
                    ++ (wrap_head ++ statement t ++ wrap_tail) ++ R') in *.
      assert (EO : OUT = lead ++ (x ++ a ++ wrap_head) ++ statement t
                           ++ (wrap_tail ++ R'))
        by (unfold OUT; now rewrite <- !app_assoc).
      assert (Hgap : clear (x ++ a ++ wrap_head)
                       (statement t ++ wrap_tail ++ R')).
      { apply clear_app; [now apply clear_not_A|].
        apply clear_app; [|now apply clear_not_A].
        rewrite statement_prefix_form, app_assoc.
        apply (clear_change a t b); [exact Hclear | reflexivity|].
        rewrite length_app. lia. }
      rewrite (render_step OUT lead (x ++ a ++ wrap_head) t
                 (wrap_tail ++ R') f2 (length lead) EO eq_refl Hgap Hne Ht).
      assert (Cw : count (lit "$$") (lead ++ x ++ a ++ wrap_head)
                   = count (lit "$$") (lead ++ x ++ a) + 1).
      { rewrite !app_assoc.
        now rewrite (count_seam_hd ((lead ++ x) ++ a) wrap_head eq_refl). }
      rewrite Cw, Nat.even_add, Pa. cbn [Nat.even Bool.eqb].
      set (p2 := length lead + length (x ++ a ++ wrap_head)
                 + length (statement t)).
      assert (EO2 : OUT = (lead ++ x ++ a ++ wrap_head ++ statement t)
                            ++ wrap_tail ++ R')
        by (unfold OUT; now rewrite <- !app_assoc).
      assert (Lp2 : p2 = length (lead ++ x ++ a ++ wrap_head ++ statement t))
        by (unfold p2; rewrite !length_app; lia).
      assert (Hrec : render OUT (finditer_from f2 alter_re OUT p2) p2
                     = wrap_tail ++ R');
        [|rewrite Hrec; now rewrite <- !app_assoc].
      rewrite Lp2, EO2. unfold R'.
      apply (IH pos' (lead ++ x ++ a ++ wrap_head ++ statement t)
               wrap_tail f2 Hpos' Hfuel' eq_refl).
      * rewrite wrap_tail_snoc, app_assoc. apply count_closed_semicolon.
      * exact Cc'.
      * rewrite Fp.
        replace ((lead ++ x ++ a ++ wrap_head ++ statement t) ++ wrap_tail)
          with ((lead ++ x) ++ a ++ wrap_head ++ statement t ++ wrap_tail)
          by now rewrite <- !app_assoc.
        rewrite (Cl (a ++ wrap_head ++ statement t ++ wrap_tail)).
        rewrite count_wrapped_after, (Cc (a ++ statement t)).
        rewrite Nat.add_assoc, even_plus_two.
        now apply even_shift.
      * fold R'. unfold OUT in Hf2. rewrite !length_app in Hf2 |- *.
        rewrite !length_app in Hf2. simpl in Hf2 |- *. lia.
    + (* it was kept: it stands in the output as it stood in the input *)
      set (OUT := lead ++ x ++ a ++ statement t ++ R') in *.
      assert (EO : OUT = lead ++ (x ++ a) ++ statement t ++ R')
        by (unfold OUT; now rewrite <- !app_assoc).
      assert (Hgap : clear (x ++ a) (statement t ++ R')).
      { apply clear_app; [now apply clear_not_A|].
        rewrite statement_prefix_form.
        apply (clear_change a t b); [exact Hclear | reflexivity | lia]. }
      rewrite (render_step OUT lead (x ++ a) t R' f2 (length lead)
                 EO eq_refl Hgap Hne Ht).
      rewrite Pa.
      set (p2 := length lead + length (x ++ a) + length (statement t)).
      assert (EO2 : OUT = (lead ++ x ++ a ++ statement t) ++ [] ++ R')
        by (unfold OUT; now rewrite <- !app_assoc).
      assert (Lp2 : p2 = length (lead ++ x ++ a ++ statement t))
        by (unfold p2; rewrite !length_app; lia).
      assert (Hrec : render OUT (finditer_from f2 alter_re OUT p2) p2
                     = [] ++ R');
        [|rewrite Hrec; now rewrite <- !app_assoc].
      rewrite Lp2, EO2. unfold R'.
      apply (IH pos' (lead ++ x ++ a ++ statement t) [] f2
               Hpos' Hfuel' eq_refl).
      * rewrite app_nil_r, !app_assoc. apply count_closed_statement.
      * exact Cc'.
      * rewrite app_nil_r, Fp.
        replace (lead ++ x ++ a ++ statement t)
          with ((lead ++ x) ++ a ++ statement t)
          by now rewrite <- !app_assoc.
        rewrite (Cl (a ++ statement t)), (Cc (a ++ statement t)).
        now apply even_shift.
      * fold R'. unfold OUT in Hf2. rewrite !length_app in Hf2.
        simpl in Hf2 |- *. lia.
  - (* no statement is left *)
    rewrite (render_none content pos (S f) E) in *.
    rewrite render_none; [now apply skipn_past|].
    rewrite skipn_past by reflexivity.
    rewrite (search_at_skip x _ _ (clear_not_A _ _ Hx)).
    now apply (search_at_none_pos _ _ pos).
Qed.

End Rescan.

Section RescanClaims.

Import ConsolidatedV2.

Lemma wrapped_longer t : length (statement t) < length (wrapped t).
Proof. rewrite wrapped_parts, !length_app. simpl. lia. Qed.

(** The output is never shorter than the input, and it is longer as soon
    as one statement found is taken to need wrapping. *)
Lemma render_grows T :
  forall fuel pos,
    pos <= length T ->
    length (skipn pos T)
    + (if existsb (fun m => negb (in_do_block T (m_start m)))
            (finditer_from fuel alter_re T pos)
       then 1 else 0)
    <= length (render T (finditer_from fuel alter_re T pos) pos).
Proof.
  induction fuel as [|f IH]; intros pos Hpos; [simpl; lia|].
  cbn [finditer_from].
  destruct (search_at alter_re (skipn pos T) pos) as [m|] eqn:E;
    [|simpl; lia].
  destruct (search_at_slices _ _ _ _ Hpos E)
    as (a & w & b & Hs & Ha & Hw & Hb & M & H1 & H2).
  apply matches_alter in M as (t & Hwt & _ & _ & Hc).
  cbn [render existsb]. rewrite !length_app, Ha, Hs, !length_app.
  specialize (IH _ H2). rewrite Hb in IH.
  unfold part_for, group0. rewrite Hw, (group_alter _ _ Hc).
  pose proof (wrapped_longer t) as Hl. fold (statement t) in Hwt.
  rewrite <- Hwt in Hl.
  destruct (in_do_block T (m_start m)); cbn [negb orb].
  - lia.
  - destruct (existsb _ _); lia.
Qed.

(** Rendering the rendered text again changes nothing. *)
Lemma render_rerun content :
  let R := render content (finditer alter_re content) 0 in
  render R (finditer alter_re R) 0 = R.
Proof.
  cbv zeta. unfold finditer.
  apply (rescan content (S (length content)) 0 [] []
           (S (length (render content (finditer alter_re content) 0))));
    try reflexivity; try lia.
  - apply count_closed_nil.
  - apply count_closed_nil.
  - unfold finditer. simpl. lia.
Qed.

(** X12. The splicing script is idempotent: its output, given to it again,
    comes back unchanged.  Every statement it wrapped is found in its
    wrapper with an odd number of [$$] before it, and every statement it
    kept is found where it was. *)
Theorem v2_transform_idempotent :
  forall content,
    transform (transform content) = transform content.
Proof.
  intros content.
  destruct (contains PHRASE content) eqn:C.
  - rewrite (transform_render _ C).
    set (R := render content (finditer alter_re content) 0).
    destruct (contains PHRASE R) eqn:CR.
    + rewrite (transform_render _ CR). apply render_rerun.
    + unfold transform. now rewrite CR.
  - unfold transform. now rewrite C, C.
Qed.

(** X13. Round trip: in the output of the splicing script no statement is
    left that the script would wrap; each one it finds there counts as
    already wrapped. *)
Theorem v2_output_needs_no_wrap :
  forall content m,
    In m (finditer alter_re (transform content)) ->
    decision (transform content) m = AlreadyWrapped.
Proof.
  intros content m Hin.
  assert (Hid : render (transform content)
                  (finditer alter_re (transform content)) 0
                = transform content).
  { destruct (contains PHRASE content) eqn:C.
    - rewrite (transform_render _ C). apply render_rerun.
    - pose proof (finditer_alter_contains _ _ Hin) as CR.
      unfold transform in CR |- *. rewrite C in CR |- *. congruence. }
  set (R := transform content) in *.
  pose proof (render_grows R (S (length R)) 0 ltac:(lia)) as G.
  fold (finditer alter_re R) in G. rewrite Hid in G.
  cbn [skipn] in G.
  destruct (existsb (fun m0 => negb (in_do_block R (m_start m0)))
              (finditer alter_re R)) eqn:Ex; [lia|].
  unfold decision.
  destruct (in_do_block R (m_start m)) eqn:D; [reflexivity|].
  assert (existsb (fun m0 => negb (in_do_block R (m_start m0)))
            (finditer alter_re R) = true).
  { apply existsb_exists. exists m. split; [exact Hin | now rewrite D]. }
  congruence.
Qed.

Lemma v2_output_needs_no_wrap_witness :
  exists m,
    In m (finditer alter_re (transform odd_markers))
    /\ decision (transform odd_markers) m = AlreadyWrapped.
Proof.
  eexists. split.
  - left. reflexivity.
  - apply v2_output_needs_no_wrap. left. reflexivity.
Defined.

End RescanClaims.

(** ** check_nesting.py: commented blocks *)

Section NestingComments.

Lemma count_zero (p s : str) :
  p <> [] -> contains p s = false -> count p s = 0.
Proof.
  intros Hp H. destruct (count p s) eqn:C; [reflexivity|].
  destruct (count_positive_find p s Hp ltac:(lia)) as [i Hi].
  unfold contains in H. rewrite Hi in H. discriminate.
Qed.

(** X15. A file in which every [DO $$] stands behind a [--] on its line is
    never reported by [check_nesting.py], however many such blocks the
    comments mention. *)
Theorem check_nesting_ignores_commented_blocks :
  forall filename content,
    (forall line, In line (split_nl content) ->
                  contains (lit "DO $$") (cut_comment line) = false) ->
    CheckNesting.do_count content = 0
    /\ CheckNesting.report filename content = [].
Proof.
  intros filename content H.
  assert (Z : CheckNesting.do_count content = 0).
  { unfold CheckNesting.do_count, ConsolidatedV2.strip_comments.
    apply count_zero; [vm_compute; discriminate|].
    rewrite (proj1 (strip_aux_lines content)).
    destruct (contains (lit "DO $$")
                (join_nl (map cut_comment (split_nl content)))) eqn:C;
      [|reflexivity].
    apply contains_join_inv in C as (l & Hin & Hl);
      [|vm_compute; discriminate|reflexivity].
    apply in_map_iff in Hin as (line & <- & Hline).
    rewrite (H _ Hline) in Hl. discriminate. }
  split; [exact Z|].
  unfold CheckNesting.report. now rewrite Z.
Qed.

Lemma check_nesting_ignores_commented_blocks_witness :
  CheckNesting.do_count
    (lit "-- DO $$ one" ++ nl :: lit "SELECT 1; -- DO $$ two") = 0
  /\ CheckNesting.report (lit "a.sql")
       (lit "-- DO $$ one" ++ nl :: lit "SELECT 1; -- DO $$ two") = [].
Proof.
  apply check_nesting_ignores_commented_blocks.
  intros line H. vm_compute in H.
  destruct H as [<-|[<-|[]]]; reflexivity.
Defined.

End NestingComments.

(** ** When nothing needs wrapping; a function at the head of a file *)

Section MoreV2AndExtract.

Import ConsolidatedV2.

Lemma render_all_kept T :
  forall fuel pos,
    pos <= length T ->
    (forall m, In m (finditer_from fuel alter_re T pos) ->
               in_do_block T (m_start m) = true) ->
    render T (finditer_from fuel alter_re T pos) pos = skipn pos T.
Proof.
  induction fuel as [|f IH]; intros pos Hpos H; [reflexivity|].
  cbn [finditer_from] in *.
  destruct (search_at alter_re (skipn pos T) pos) as [m|] eqn:E;
    [|reflexivity].
  destruct (search_at_slices _ _ _ _ Hpos E)
    as (a & w & b & Hs & Ha & Hw & Hb & _ & H1 & H2).
  cbn [render]. unfold part_for, group0.
  rewrite (H m (or_introl eq_refl)), Ha, Hw.
  rewrite (IH _ H2 (fun m0 Hm0 => H m0 (or_intror Hm0))), Hb.
  now rewrite Hs.
Qed.

(** X16. A file in which every statement found has an odd number of [$$]
    before it is returned by the splicing script byte for byte. *)
Theorem v2_keeps_file_of_kept_statements :
  forall content,
    (forall m, In m (finditer alter_re content) ->
               in_do_block content (m_start m) = true) ->
    transform content = content.
Proof.
  intros content H. unfold transform.
  destruct (contains PHRASE content) eqn:C; [|reflexivity].
  pose proof (transform_render content C) as Hr.
  unfold transform in Hr. rewrite C in Hr. rewrite Hr.
  apply (render_all_kept content (S (length content)) 0); [lia | exact H].
Qed.

Lemma v2_keeps_file_of_kept_statements_witness :
  transform unguarded_block = unguarded_block.
Proof.
  apply v2_keeps_file_of_kept_statements.
  intros m H. vm_compute in H. destruct H as [<-|[]]. reflexivity.
Defined.

Import Extract.

Lemma function_match_at_head (z : str) :
  match_here function_re (lit "CREATE FUNCTION" ++ z) <> None
  /\ match_here function_re (lit "CREATE OR REPLACE FUNCTION" ++ z) <> None.
Proof. split; vm_compute; discriminate. Qed.

Lemma function_starts_head (s : str) :
  match_here function_re s <> None ->
  exists rest, function_starts s = 0 :: rest.
Proof.
  intros H. unfold function_starts, finditer. cbn [finditer_from skipn].
  destruct (match_here function_re s) as [[s' c]|] eqn:E; [|congruence].
  rewrite (search_at_here _ _ 0 _ _ E). cbn [map m_start]. eauto.
Qed.

Lemma is_commented_at_zero content : is_commented content 0 = false.
Proof. reflexivity. Qed.

(** X17. Extraction of a function that opens a file.  When the file starts
    with [CREATE FUNCTION] or [CREATE OR REPLACE FUNCTION], goes on with a
    signature up to the first [$$], a body up to the next [$$], and a tail
    free of [;] up to a [;], the first fragment of the file is the header
    line followed by exactly that statement, keyword through [;]. *)
Theorem function_at_head_extracted :
  forall filename kw sig body tail rest,
    kw = lit "CREATE FUNCTION" \/ kw = lit "CREATE OR REPLACE FUNCTION" ->
    marker_free (kw ++ sig) -> marker_free body ->
    forallb not_semicolon tail = true ->
    let stmt := (kw ++ sig) ++ lit "$$" ++ body ++ lit "$$" ++ tail
                  ++ lit ";" in
    hd_error (file_fragments filename (stmt ++ rest))
    = Some (header filename ++ stmt ++ [nl]).
Proof.
  intros filename kw sig body tail rest Hkw Hh Hb Ht stmt.
  assert (Hm : match_here function_re (stmt ++ rest) <> None).
  { unfold stmt. rewrite <- !app_assoc.
    destruct Hkw as [-> | ->]; apply function_match_at_head. }
  destruct (function_starts_head _ Hm) as [more Hstarts].
  assert (F : function_fragment filename (stmt ++ rest) 0
              = Some (header filename ++ stmt ++ [nl])).
  { apply (function_fragment_of_shape filename _ 0 (kw ++ sig) body tail
             rest); auto.
    cbn [skipn]. unfold stmt. now rewrite <- !app_assoc. }
  unfold file_fragments. rewrite Hstarts. cbn [flat_map].
  unfold function_step at 1. rewrite is_commented_at_zero, F.
  reflexivity.
Qed.

Lemma function_at_head_extracted_witness :
  hd_error (file_fragments (lit "a.sql") complete_fn)
  = Some (header (lit "a.sql") ++ complete_fn ++ [nl]).
Proof.
  apply (function_at_head_extracted (lit "a.sql") (lit "CREATE FUNCTION")
           (lit " f() RETURNS void AS ") (lit " BEGIN END ")
           (lit " LANGUAGE plpgsql") []);
    [now left | reflexivity | reflexivity | reflexivity].
Defined.

End MoreV2AndExtract.

(** ** What every file comes out as *)

Section OutcomeFacts.

Import ConsolidatedV2.



End OutcomeFacts.

Section OutcomeClaims.

Import ConsolidatedV2.



End OutcomeClaims.

(** ** The output around one statement *)

Section DecisionFrames.

Import ConsolidatedV2.

Lemma text_after_cons s segs tail :
  text_after (s :: segs) tail
  = seg_gap s ++ seg_repl s ++ text_after segs tail.
Proof. unfold text_after. cbn [map concat]. now rewrite <- !app_assoc. Qed.

Lemma text_before_cons s segs tail :
  text_before (s :: segs) tail
  = seg_gap s ++ seg_stmt s ++ text_before segs tail.
Proof. unfold text_before. cbn [map concat]. now rewrite <- !app_assoc. Qed.

Lemma firstn_plus {A} (l : list A) n k :
  firstn (n + k) l = firstn n l ++ firstn k (skipn n l).
Proof.
  revert l; induction n as [|n IH]; intros l; [reflexivity|].
  destruct l as [|x l]; simpl.
  - now rewrite firstn_nil.
  - now rewrite IH.
Qed.

Lemma slice_split {A} (l : list A) a b c :
  a <= b -> b <= c -> slice l a c = slice l a b ++ slice l b c.
Proof.
  intros H1 H2. unfold slice.
  replace (c - a) with ((b - a) + (c - b)) by lia.
  rewrite firstn_plus. f_equal.
  rewrite skipn_skipn. do 2 f_equal. lia.
Qed.

(** The output around one statement found: the text before it is a splice
    of the input before it, the text after it a splice of the input after
    it, and between them stands what the loop appended for the
    statement. *)
Lemma render_at content :
  forall fuel pos m,
    pos <= length content ->
    In m (finditer_from fuel alter_re content pos) ->
    exists segs1 gap segs2 tail,
      slice content pos (m_start m) = text_before segs1 gap
      /\ skipn (m_end m) content = text_before segs2 tail
      /\ Forall spliced segs1 /\ Forall spliced segs2
      /\ render content (finditer_from fuel alter_re content pos) pos
         = text_after segs1 gap ++ part_for content m
             ++ text_after segs2 tail.
Proof.
  induction fuel as [|f IH]; intros pos m Hpos Hin; [contradiction|].
  cbn [finditer_from] in *.
  destruct (search_at alter_re (skipn pos content) pos) as [m0|] eqn:E;
    [|contradiction].
  destruct (search_at_slices _ _ _ _ Hpos E)
    as (a & w & b & Hs & Ha & Hw & Hb & M & H1 & H2).
  cbn [render]. destruct Hin as [<-|Hin].
  - destruct (render_frame content f (m_end m0) H2)
      as (segs2 & tail & Hin2 & Hout2 & Hok2).
    exists [], (slice content pos (m_start m0)), segs2, tail.
    repeat split; auto. now rewrite Hout2.
  - destruct (IH _ _ H2 Hin) as (segs1 & gap & segs2 & tail & Hb1 & Hb2
                                   & Hok1 & Hok2 & Hr).
    pose proof (alter_nonempty _ _ _ M) as Hne.
    assert (Hle : m_end m0 <= m_start m).
    { apply finditer_from_sound in Hin as (a' & w' & b' & _ & _ & Hp & Hst
                                            & _); [lia | exact H2]. }
    apply matches_alter in M as (t & Hwt & Hnt & Hall & Hc).
    exists (mkSegment a w (part_for content m0) :: segs1), gap, segs2, tail.
    repeat split; auto.
    + rewrite text_before_cons. cbn [seg_gap seg_stmt].
      rewrite <- Hb1, <- Ha, <- Hw.
      assert (m_start m0 <= m_end m0).
      { rewrite <- Hw in Hne.
        destruct (Nat.le_gt_cases (m_start m0) (m_end m0)); [assumption|].
        exfalso. apply Hne. unfold slice.
        replace (m_end m0 - m_start m0) with 0 by lia. reflexivity. }
      rewrite (slice_split content pos (m_start m0) (m_start m)) by lia.
      f_equal. apply slice_split; lia.
    + constructor; [|exact Hok1].
      exists t. cbn [seg_stmt seg_repl]. split; [exact Hwt|].
      unfold part_for, group0. rewrite Hw.
      destruct (in_do_block content (m_start m0)); [now left | right].
      f_equal. now apply group_alter.
    + rewrite Hr, text_after_cons. cbn [seg_gap seg_repl].
      rewrite Ha. now rewrite <- !app_assoc.
Qed.

(** The same, for a statement the splicing script finds in a file. *)
Lemma transform_at content m :
  In m (finditer alter_re content) ->
  exists segs1 gap segs2 tail,
    firstn (m_start m) content = text_before segs1 gap
    /\ skipn (m_end m) content = text_before segs2 tail
    /\ Forall spliced segs1 /\ Forall spliced segs2
    /\ transform content
       = text_after segs1 gap
           ++ (if Nat.even (dollar_count content (m_start m))
               then wrapped (group m 1)
               else group0 content m)
           ++ text_after segs2 tail.
Proof.
  intros Hin.
  pose proof (transform_render _ (finditer_alter_contains _ _ Hin)) as Ht.
  destruct (render_at content (S (length content)) 0 m (Nat.le_0_l _) Hin)
    as (segs1 & gap & segs2 & tail & Hb1 & Hb2 & Hok1 & Hok2 & Hr).
  fold (finditer alter_re content) in Hr. rewrite Hr in Ht.
  unfold slice in Hb1. rewrite Nat.sub_0_r in Hb1. cbn [skipn] in Hb1.
  exists segs1, gap, segs2, tail. repeat split; auto.
  rewrite Ht. unfold part_for.
  rewrite in_do_block_odd, <- Nat.negb_even.
  now destruct (Nat.even _).
Qed.

End DecisionFrames.

(** ** What the line scripts leave on a line *)

Section LineEntries.

Lemma consolidated_entry lines :
  forall todo k j line,
    nth_error todo j = Some line ->
    nth_error (Consolidated.loop_from lines k todo) j
    = Some (Consolidated.emit lines (k + j) line).
Proof.
  induction todo as [|l todo IH]; intros k j line H.
  - destruct j; discriminate H.
  - destruct j as [|j]; cbn [Consolidated.loop_from nth_error] in *.
    + injection H as <-. now rewrite Nat.add_0_r.
    + rewrite (IH (S k) j line H). do 2 f_equal. lia.
Qed.

Lemma consolidated_length lines :
  forall todo k, length (Consolidated.loop_from lines k todo) = length todo.
Proof.
  induction todo as [|l todo IH]; intros k; [reflexivity|].
  cbn [Consolidated.loop_from length]. now rewrite IH.
Qed.

Lemma fix_one_entry lines :
  forall todo k j line,
    nth_error todo j = Some line ->
    nth_error (FixOne.loop_from lines k todo) j
    = Some (FixOne.emit lines (k + j) line).
Proof.
  induction todo as [|l todo IH]; intros k j line H.
  - destruct j; discriminate H.
  - destruct j as [|j]; cbn [FixOne.loop_from nth_error] in *.
    + injection H as <-. now rewrite Nat.add_0_r.
    + rewrite (IH (S k) j line H). do 2 f_equal. lia.
Qed.

(** A line the pattern matches holds the phrase. *)
Lemma search_has_phrase line m :
  re_search alter_re line = Some m -> contains PHRASE line = true.
Proof.
  intros H. destruct (search_at_sound _ _ _ _ H) as (a & w & b & -> & M & _).
  apply matches_alter in M as (t & -> & _).
  apply contains_iff. exists a, (lit " " ++ t ++ lit ";" ++ b).
  now rewrite <- !app_assoc.
Qed.

(** A file one of whose lines holds the phrase holds it. *)
Lemma line_phrase_in_file content i line :
  nth_error (split_nl content) i = Some line ->
  contains PHRASE line = true -> contains PHRASE content = true.
Proof.
  intros H C. apply nth_error_In in H.
  pose proof (contains_join _ _ _ H C) as Hc.
  now rewrite join_split in Hc.
Qed.

(** The entry the in-place script leaves at index [i]. *)
Lemma fix_all_entry lines i line :
  nth_error lines i = Some line ->
  nth_error (fst (FixAll.loop lines)) i
  = Some (match FixAll.decision_at lines i with
          | Some w => w
          | None => line
          end).
Proof.
  intros H. unfold FixAll.loop.
  assert (Hi : i < length lines) by (apply nth_error_Some; congruence).
  now rewrite (loop_upto_behind _ _ _ Hi), loop_upto_settled, H.
Qed.

End LineEntries.

(** ** How the two consolidating scripts decide *)

Section DecisionClaims.

Import ConsolidatedV2.

(** C3, amended.  In [generate_consolidated_v2.py] the decision for every
    statement the pattern finds is taken from the parity of the [$$] count
    before it alone, and it is never ambiguous.  Even: needs wrapping, and
    the output is the text before the statement, the wrapper, the text
    after the statement.  Odd: already wrapped, whatever the enclosing
    block looks like, and the output has the statement itself between the
    same two texts.  The two texts are splices of the input before and
    after the statement: gaps copied, every other statement kept or
    replaced by its wrapper.  [generate_consolidated.py] decides line by
    line from keywords: a line that holds the phrase is kept when the test
    of lines 29 to 32 holds, and is otherwise replaced by the wrapper of
    the table text the pattern finds on it (kept if it finds none). *)
Theorem C3_v2_decision_by_parity :
  forall content,
    (forall m,
        In m (finditer alter_re content) ->
        decision content m <> Ambiguous
        /\ exists segs1 gap segs2 tail,
             firstn (m_start m) content = text_before segs1 gap
             /\ skipn (m_end m) content = text_before segs2 tail
             /\ Forall spliced segs1 /\ Forall spliced segs2
             /\ (Nat.even (dollar_count content (m_start m)) = true ->
                 decision content m = NeedsWrap
                 /\ transform content
                    = text_after segs1 gap ++ wrapped (group m 1)
                        ++ text_after segs2 tail)
             /\ (Nat.odd (dollar_count content (m_start m)) = true ->
                 decision content m = AlreadyWrapped
                 /\ transform content
                    = text_after segs1 gap ++ group0 content m
                        ++ text_after segs2 tail))
    /\ (let lines := split_nl content in
        let out := Consolidated.loop_from lines 0 lines in
        forall i line,
          nth_error lines i = Some line ->
          contains PHRASE line = true ->
          Consolidated.transform content = join_nl out
          /\ length out = length lines
          /\ (Consolidated.handled lines i = true ->
              nth_error out i = Some line)
          /\ (Consolidated.handled lines i = false ->
              match re_search alter_re line with
              | Some m => nth_error out i = Some (wrapped (group m 1))
              | None => nth_error out i = Some line
              end)).
Proof.
  intros content. split.
  - intros m Hin.
    destruct (transform_at content m Hin)
      as (segs1 & gap & segs2 & tail & Hb1 & Hb2 & Hok1 & Hok2 & Ht).
    split.
    + unfold decision. destruct (in_do_block content (m_start m));
        discriminate.
    + exists segs1, gap, segs2, tail.
      split; [exact Hb1|]. split; [exact Hb2|].
      split; [exact Hok1|]. split; [exact Hok2|].
      unfold decision. rewrite in_do_block_odd, <- Nat.negb_even.
      destruct (Nat.even (dollar_count content (m_start m))); cbn [negb].
      * split; [auto | discriminate].
      * split; [discriminate | auto].
  - cbv zeta. intros i line H C.
    unfold Consolidated.transform.
    rewrite (line_phrase_in_file _ _ _ H C).
    split; [reflexivity|]. split; [apply consolidated_length|].
    rewrite (consolidated_entry _ _ 0 i line H). cbn [Nat.add].
    unfold Consolidated.emit. rewrite C.
    split; intros Hh; rewrite Hh; [reflexivity|].
    destruct (re_search alter_re line); reflexivity.
Qed.

Lemma C3_v2_decision_witness :
  (exists m,
      In m (finditer alter_re unguarded_block)
      /\ Nat.odd (dollar_count unguarded_block (m_start m)) = true
      /\ decision unguarded_block m = AlreadyWrapped
      /\ exists segs1 gap segs2 tail,
           firstn (m_start m) unguarded_block = text_before segs1 gap
           /\ skipn (m_end m) unguarded_block = text_before segs2 tail
           /\ Forall spliced segs1 /\ Forall spliced segs2
           /\ transform unguarded_block
              = text_after segs1 gap ++ group0 unguarded_block m
                  ++ text_after segs2 tail)
  /\ Consolidated.handled (split_nl unguarded_block) 1 = false
  /\ nth_error
       (Consolidated.loop_from (split_nl unguarded_block) 0
          (split_nl unguarded_block)) 1
     = Some (wrapped (lit "t1")).
Proof.
  destruct (C3_v2_decision_by_parity unguarded_block) as [H1 H2].
  split.
  - eexists. split; [left; reflexivity|]. split; [reflexivity|].
    edestruct H1 as (_ & segs1 & gap & segs2 & tail & Hb1 & Hb2 & Hok1
                      & Hok2 & _ & Hodd); [left; reflexivity|].
    destruct (Hodd eq_refl) as [Hd Ht].
    split; [exact Hd|].
    exists segs1, gap, segs2, tail. repeat split; assumption.
  - split; [reflexivity|].
    cbv zeta in H2.
    destruct (H2 1 stmt_t1 eq_refl eq_refl) as (_ & _ & _ & Hw).
    exact (Hw eq_refl).
Defined.

End DecisionClaims.

(** ** Comments: the extractor's filter, and the wrap scripts *)

Section CommentClaims.

Import Extract.

(** C4, amended.  In the extractor, a function or trigger match that has
    [--] before it on its line yields no fragment; a function match on a
    line without [--] before it yields its fragment whenever the body and
    the terminator are found, and a trigger match on such a line always
    yields its fragment.  The wrap scripts do not look at comments.  For
    every file and every statement the pattern finds, whether or not [--]
    stands before the statement on its line, the statement is wrapped
    under one and the same test: by [fix_all_migrations.py] when the ten
    entries before it, as they stand when the line is reached, hold no
    [DO $$] or hold an [END $$]; by [fix_migrations.py] when the five
    lines before it hold no [DO $$]; by [generate_consolidated.py] when the
    keyword test fails; by [generate_consolidated_v2.py] when an even
    number of [$$] precedes it, the wrapper then standing in the output
    between the spliced text before the statement and the spliced text
    after it.  In particular the one-line file that holds a statement
    behind [-- ] comes out of [fix_all_migrations.py] as the wrapper. *)
Theorem C4_comment_filter_in_extractor_only :
  (forall filename content pre mid rest,
      content = pre ++ lit "--" ++ mid ++ rest ->
      forallb not_nl mid = true ->
      let p := length (pre ++ lit "--" ++ mid) in
      function_step filename content p = []
      /\ forall m, m_start m = p -> trigger_step filename content m = [])
  /\ (forall filename content p pre line f,
        firstn p content = pre ++ line ->
        pre = [] \/ (exists pre', pre = pre' ++ [nl]) ->
        contains (lit "--") line = false ->
        function_fragment filename content p = Some f ->
        function_step filename content p = [f])
  /\ (forall filename content m pre line,
        firstn (m_start m) content = pre ++ line ->
        pre = [] \/ (exists pre', pre = pre' ++ [nl]) ->
        contains (lit "--") line = false ->
        trigger_step filename content m
        = [header filename ++ drop_stmt (group m 1) (group m 2) ++ [nl]
             ++ group0 content m ++ [nl]])
  /\ (forall t,
        t <> [] -> forallb not_semicolon t = true ->
        forallb not_nl t = true ->
        FixAll.fix_file (lit "-- " ++ PHRASE ++ lit " " ++ t ++ lit ";")
        = wrapped t)
  /\ (forall content i line m commented,
        let lines := split_nl content in
        nth_error lines i = Some line ->
        re_search alter_re line = Some m ->
        contains (lit "--") (firstn (m_start m) line) = commented ->
        (let context :=
           join_nl (slice (fst (FixAll.loop_upto lines i))
                      (Nat.max 0 (i - 10)) i) in
         FixAll.fix_file content = join_nl (fst (FixAll.loop lines))
         /\ nth_error (fst (FixAll.loop lines)) i
            = Some (if negb (contains (lit "DO $$") context)
                       || contains (lit "END $$") context
                    then wrapped (group m 1) else line))
        /\ (let context := join_nl (slice lines (Nat.max 0 (i - 5)) i) in
            FixOne.fix_file content
            = join_nl (FixOne.loop_from lines 0 lines)
            /\ nth_error (FixOne.loop_from lines 0 lines) i
               = Some (if contains (lit "DO $$") context
                       then line else wrapped (group m 1)))
        /\ (Consolidated.transform content
            = join_nl (Consolidated.loop_from lines 0 lines)
            /\ nth_error (Consolidated.loop_from lines 0 lines) i
               = Some (if Consolidated.handled lines i
                       then line else wrapped (group m 1))))
  /\ (forall content m commented,
        In m (finditer alter_re content) ->
        is_commented content (m_start m) = commented ->
        exists segs1 gap segs2 tail,
          firstn (m_start m) content = text_before segs1 gap
          /\ skipn (m_end m) content = text_before segs2 tail
          /\ Forall spliced segs1 /\ Forall spliced segs2
          /\ ConsolidatedV2.transform content
             = text_after segs1 gap
                 ++ (if Nat.even
                          (ConsolidatedV2.dollar_count content (m_start m))
                     then wrapped (group m 1)
                     else group0 content m)
                 ++ text_after segs2 tail).
Proof.
  split; [|split; [|split; [|split; [|split]]]].
  - intros filename content pre mid rest E Hmid p.
    assert (C : is_commented content p = true).
    { apply is_commented_iff. exists pre, mid. split; [|exact Hmid].
      subst content p. rewrite !app_assoc.
      rewrite firstn_app, firstn_all, Nat.sub_diag. simpl.
      apply app_nil_r. }
    split.
    + unfold function_step. now rewrite C.
    + intros m <-. unfold trigger_step. now rewrite C.
  - intros filename content p pre line f E Hpre Hline F.
    unfold function_step.
    now rewrite (is_commented_off _ _ _ _ E Hpre Hline), F.
  - intros filename content m pre line E Hpre Hline.
    unfold trigger_step.
    now rewrite (is_commented_off _ _ _ _ E Hpre Hline).
  - intros t Hne Hsemi Hnl.
    set (s := lit "-- " ++ PHRASE ++ lit " " ++ t ++ lit ";").
    assert (Hs : forallb not_nl s = true).
    { unfold s. rewrite !forallb_app, Hnl. reflexivity. }
    assert (Hc : contains PHRASE s = true).
    { apply contains_iff. now exists (lit "-- "), (lit " " ++ t ++ lit ";"). }
    destruct (alter_search (lit "-- ") t [] 0 eq_refl Hne Hsemi)
      as (m & Hm & _ & Hg).
    rewrite app_nil_r in Hm. fold s in Hm.
    unfold FixAll.fix_file, FixAll.loop. rewrite (split_nl_single _ Hs).
    change (FixAll.loop_upto [s] (length [s]))
      with (FixAll.step ([s], false) 0).
    unfold FixAll.step. cbn [nth_error].
    unfold FixAll.replacement, FixAll.needs_wrap. rewrite Hc.
    change (slice [s] (Nat.max 0 (0 - 10)) 0) with (@nil str).
    change (contains (lit "DO $$") (join_nl [])) with false.
    cbn [negb orb andb]. unfold re_search. rewrite Hm, Hg.
    reflexivity.
  - intros content i line m commented lines H M _.
    pose proof (search_has_phrase _ _ M) as C.
    split; [|split].
    + cbv zeta. split; [apply fix_file_joined|].
      rewrite (fix_all_entry _ _ _ H). unfold FixAll.decision_at.
      rewrite loop_upto_ahead, H by lia.
      unfold FixAll.replacement, FixAll.needs_wrap. rewrite C, M.
      cbn [andb].
      now destruct (negb _ || _).
    + cbv zeta. split; [reflexivity|].
      rewrite (fix_one_entry _ _ 0 i line H). cbn [Nat.add].
      unfold FixOne.emit. rewrite C, M. cbn [andb].
      now destruct (contains (lit "DO $$") _).
    + split.
      * unfold Consolidated.transform.
        now rewrite (line_phrase_in_file _ _ _ H C).
      * rewrite (consolidated_entry _ _ 0 i line H). cbn [Nat.add].
        unfold Consolidated.emit. rewrite C, M. reflexivity.
  - intros content m commented Hin _. now apply transform_at.
Qed.

Lemma C4_comment_filter_witness :
  function_step (lit "a.sql") (lit "-- " ++ complete_fn) 3 = []
  /\ function_step (lit "a.sql") complete_fn 0
     = [lit "-- From a.sql" ++ nl :: complete_fn ++ [nl]]
  /\ trigger_step (lit "a.sql") sample_trigger
       (mkMatch 0 78
          (set_cap 2 (lit "public.t") (set_cap 1 (lit "trg") no_caps)))
     = [header (lit "a.sql")
          ++ drop_stmt (lit "trg") (lit "public.t") ++ [nl]
          ++ sample_trigger ++ [nl]]
  /\ FixAll.fix_file commented_stmt = wrapped (lit "t1")
  /\ (nth_error (fst (FixAll.loop (split_nl commented_stmt))) 0
      = Some (wrapped (lit "t1"))
      /\ nth_error
           (FixOne.loop_from (split_nl commented_stmt) 0
              (split_nl commented_stmt)) 0
         = Some (wrapped (lit "t1"))
      /\ nth_error
           (Consolidated.loop_from (split_nl commented_stmt) 0
              (split_nl commented_stmt)) 0
         = Some (wrapped (lit "t1")))
  /\ exists segs1 gap segs2 tail,
       lit "-- " = text_before segs1 gap
       /\ [] = text_before segs2 tail
       /\ Forall spliced segs1 /\ Forall spliced segs2
       /\ ConsolidatedV2.transform commented_stmt
          = text_after segs1 gap ++ wrapped (lit "t1")
              ++ text_after segs2 tail.
Proof.
  pose proof C4_comment_filter_in_extractor_only
    as (H1 & H2 & H3 & H4 & H5 & H6).
  split; [|split; [|split; [|split; [|split]]]].
  - apply (H1 (lit "a.sql") (lit "-- " ++ complete_fn)
              [] (lit " ") complete_fn); reflexivity.
  - apply (H2 (lit "a.sql") complete_fn 0 [] []);
      [reflexivity | now left | reflexivity | vm_compute; reflexivity].
  - apply (H3 (lit "a.sql") sample_trigger
              (mkMatch 0 78
                 (set_cap 2 (lit "public.t")
                    (set_cap 1 (lit "trg") no_caps))) [] []);
      [reflexivity | now left | reflexivity].
  - apply (H4 (lit "t1")); [discriminate | reflexivity | reflexivity].
  - destruct (H5 commented_stmt 0 commented_stmt
                (mkMatch 3 52 (set_cap 1 (lit "t1") no_caps)) true
                eq_refl eq_refl eq_refl)
      as ((_ & Ha) & (_ & Hb) & (_ & Hc)).
    split; [exact Ha|]. split; [exact Hb | exact Hc].
  - apply (H6 commented_stmt
              (mkMatch 3 52 (set_cap 1 (lit "t1") no_caps)) true);
      [left; reflexivity | reflexivity].
Defined.

End CommentClaims.

(** ** What a fragment holds *)

Section ExtentClaims.

Import Extract.

(** C7, amended: every fragment is of one of two kinds.  A function
    fragment is the header line followed by the statement and a newline,
    and nothing else: no guard statement.  The statement is the text of the
    file from an uncommented match of the function pattern through the
    first [;] after the second [$$] that follows the match: a head, [$$],
    a body, [$$], a tail and [;], with no [$$] in head or body and no [;]
    in the tail.  A trigger fragment is the header line, the statement
    [DROP TRIGGER IF EXISTS name ON table;] built from the two captured
    names, and the matched slice of the file; the names are the word after
    [CREATE TRIGGER] and the dotted word after [ON] in that slice. *)
Theorem C7_fragment_contents :
  forall filename content frag,
    In frag (file_fragments filename content) ->
    (exists start head body tail rest,
        In start (function_starts content)
        /\ is_commented content start = false
        /\ skipn start content
           = head ++ lit "$$" ++ body ++ lit "$$" ++ tail ++ lit ";" ++ rest
        /\ marker_free head /\ marker_free body
        /\ forallb not_semicolon tail = true
        /\ frag = header filename
                    ++ (head ++ lit "$$" ++ body ++ lit "$$" ++ tail
                          ++ lit ";")
                    ++ [nl])
    \/ (exists m name table,
          In m (finditer trigger_re content)
          /\ is_commented content (m_start m) = false
          /\ group m 1 = name /\ group m 2 = table
          /\ trigger_shape (group0 content m) name table
          /\ frag = header filename ++ drop_stmt name table ++ [nl]
                      ++ group0 content m ++ [nl]).
Proof.
  intros filename content frag H. unfold file_fragments in H.
  apply in_app_or in H as [H|H]; apply in_flat_map in H as (x & Hx & Hf).
  - left. unfold function_step in Hf.
    destruct (is_commented content x) eqn:C; [contradiction|].
    destruct (function_fragment filename content x) as [f|] eqn:F;
      [|contradiction].
    destruct Hf as [<-|[]].
    destruct (function_fragment_shape _ _ _ _ F)
      as (head & body & tail & rest & Es & Hh & Hb & Ht & ->).
    exists x, head, body, tail, rest. now repeat split.
  - right. unfold trigger_step in Hf.
    destruct (is_commented content (m_start x)) eqn:C; [contradiction|].
    destruct Hf as [<-|[]].
    pose proof Hx as Hs. apply finditer_from_sound in Hs; [|lia].
    destruct Hs as (a & w & b & -> & M & _ & Hst & Hen).
    apply matches_trigger in M as (name & table & H1 & H2 & Hshape).
    exists x, name, table.
    assert (G0 : group0 (a ++ w ++ b) x = w).
    { unfold group0. rewrite Hst, Hen. apply slice_app_mid. }
    assert (G1 : group x 1 = name) by (unfold group; now rewrite H1).
    assert (G2 : group x 2 = table) by (unfold group; now rewrite H2).
    rewrite G0, G1, G2. now repeat split.
Qed.

Lemma C7_fragment_contents_witness :
  let frag := header (lit "a.sql") ++ complete_fn ++ [nl] in
  (exists start head body tail rest,
      In start (function_starts complete_fn)
      /\ is_commented complete_fn start = false
      /\ skipn start complete_fn
         = head ++ lit "$$" ++ body ++ lit "$$" ++ tail ++ lit ";" ++ rest
      /\ marker_free head /\ marker_free body
      /\ forallb not_semicolon tail = true
      /\ frag = header (lit "a.sql")
                  ++ (head ++ lit "$$" ++ body ++ lit "$$" ++ tail
                        ++ lit ";")
                  ++ [nl])
  \/ (exists m name table,
        In m (finditer trigger_re complete_fn)
        /\ is_commented complete_fn (m_start m) = false
        /\ group m 1 = name /\ group m 2 = table
        /\ trigger_shape (group0 complete_fn m) name table
        /\ frag = header (lit "a.sql") ++ drop_stmt name table ++ [nl]
                    ++ group0 complete_fn m ++ [nl]).
Proof.
  cbv zeta. apply (C7_fragment_contents (lit "a.sql") complete_fn).
  vm_compute. left. reflexivity.
Defined.

End ExtentClaims.
